(** * Endb: a key-value facade over pluggable stores

    A shallow embedding of [src/index.js].  JavaScript values are a tree
    data type, strings are [string], a [Map] is an insertion-ordered
    association list, store objects live in a heap addressed by
    references (so that two facades can share one store), and every
    promise-returning method is a computation that threads the heap and
    either resolves with a value or rejects with an error.

    What the file does not contain is taken as a parameter of the section
    [Facade]: the host's [JSON.stringify], [JSON.parse] and product of
    numbers, the adapter modules under [./adapters] and [util.math] of
    [./util]. *)

From Stdlib Require Import String Ascii List Bool Arith ZArith QArith Qround Lia.
From Stdlib Require Import DecimalString.
Import ListNotations.

Local Close Scope Q_scope.
Local Open Scope string_scope.
Local Open Scope list_scope.
Local Set Warnings "-register-all".

(** ** JavaScript values *)

(** Numbers are the finite doubles, each read as the rational it denotes;
    [NaN] and the infinities are not represented.  Functions and promises
    are not values of this type: hooks and predicates are Rocq functions. *)
Inductive jsval : Type :=
| VUndefined : jsval
| VNull : jsval
| VBool (b : bool) : jsval
| VNum (q : Q) : jsval
| VStr (s : string) : jsval
| VArr (items : list jsval) : jsval
| VObj (fields : list (string * jsval)) : jsval
| VBuffer (bytes : list ascii) : jsval.

Inductive error : Type :=
| TypeError : error
| SyntaxError : error
| HostError (msg : string) : error.

(** How a call, or a promise, ends. *)
Inductive outcome (X : Type) : Type :=
| Resolved (x : X) : outcome X
| Rejected (e : error) : outcome X.

Arguments Resolved {X} x.
Arguments Rejected {X} e.

(** [typeof v === 'object'] *)
Definition typeof_object (v : jsval) : bool :=
  match v with
  | VNull | VArr _ | VObj _ | VBuffer _ => true
  | _ => false
  end.

(** Truthiness of a value, as an [if] sees it. *)
Definition truthy (v : jsval) : bool :=
  match v with
  | VUndefined | VNull => false
  | VBool b => b
  | VNum q => negb (Z.eqb (Qnum q) 0)
  | VStr s => negb (String.eqb s EmptyString)
  | VArr _ | VObj _ | VBuffer _ => true
  end.

Fixpoint own_property (name : string) (fields : list (string * jsval)) : jsval :=
  match fields with
  | [] => VUndefined
  | (n, v) :: rest => if String.eqb name n then v else own_property name rest
  end.

(** [v.value]: reading a property of [undefined] or [null] throws, a
    plain object gives its field, and no other value has a [value]
    property. *)
Definition dot_value (v : jsval) : outcome jsval :=
  match v with
  | VUndefined | VNull => Rejected TypeError
  | VObj fields => Resolved (own_property "value" fields)
  | _ => Resolved VUndefined
  end.

(** ** Strings *)

Fixpoint drop (n : nat) (s : string) : string :=
  match n, s with
  | O, _ => s
  | S n', String _ s' => drop n' s'
  | S _, EmptyString => EmptyString
  end.

(** [s.replace(pat, rep)] with a string pattern: only the first
    occurrence is replaced. *)
Fixpoint replace (pat rep s : string) : string :=
  if String.prefix pat s then rep ++ drop (String.length pat) s
  else match s with
       | EmptyString => EmptyString
       | String c s' => String c (replace pat rep s')
       end.

(** [/^[^:]*/.exec(uri)[0]]: the longest prefix without a colon. *)
Fixpoint scheme_of (uri : string) : string :=
  match uri with
  | EmptyString => EmptyString
  | String c rest =>
      if Ascii.eqb c ":"%char then EmptyString else String c (scheme_of rest)
  end.

(** ** The host's Map *)

Module Map.

(** Entries in insertion order. *)
Definition t : Type := list (string * jsval).

Fixpoint lookup (k : string) (m : t) : option jsval :=
  match m with
  | [] => None
  | (k', v) :: rest => if String.eqb k k' then Some v else lookup k rest
  end.

Definition get (k : string) (m : t) : jsval :=
  match lookup k m with
  | Some v => v
  | None => VUndefined
  end.

Definition has (k : string) (m : t) : bool :=
  match lookup k m with
  | Some _ => true
  | None => false
  end.

(** An existing key keeps its place, a new one goes last. *)
Fixpoint set (k : string) (v : jsval) (m : t) : t :=
  match m with
  | [] => [(k, v)]
  | (k', v') :: rest =>
      if String.eqb k k' then (k', v) :: rest else (k', v') :: set k v rest
  end.

Definition delete (k : string) (m : t) : t :=
  filter (fun kv => negb (String.eqb k (fst kv))) m.

Definition clear (m : t) : t := [].

End Map.

(** ** Math.round *)

(** The nearest integer, a tie going up: [floor(x + 1/2)]. *)
Definition Math_round (x : Q) : Z := Qfloor (x + (1 # 2)).

(** ** Options and instances *)

Definition ref : Type := nat.

Definition hook : Type := jsval -> outcome jsval.

(** An options object as a caller writes it: any property may be absent. *)
Record OptionsArg : Type := {
  arg_namespace : option string;
  arg_serialize : option hook;
  arg_deserialize : option hook;
  arg_adapter : option string;
  arg_uri : option string;
  arg_store : option ref
}.

Definition no_options : OptionsArg :=
  {| arg_namespace := None; arg_serialize := None; arg_deserialize := None;
     arg_adapter := None; arg_uri := None; arg_store := None |}.

(** [this.options] once the defaults are merged in. *)
Record Options : Type := {
  namespace : string;
  serialize : hook;
  deserialize : hook;
  adapter : option string;
  uri : option string;
  store : option ref
}.

Record Endb : Type := { options : Options }.

(** The first argument of the constructor. *)
Inductive UriArg : Type :=
| UriString (s : string) : UriArg
| UriOptions (o : OptionsArg) : UriArg
| UriAbsent : UriArg.

Definition or_else {X : Type} (later earlier : option X) : option X :=
  match later with
  | Some x => Some x
  | None => earlier
  end.

(** [Object.assign(target, source)] on options objects. *)
Definition assign (target source : OptionsArg) : OptionsArg :=
  {| arg_namespace := or_else (arg_namespace source) (arg_namespace target);
     arg_serialize := or_else (arg_serialize source) (arg_serialize target);
     arg_deserialize := or_else (arg_deserialize source) (arg_deserialize target);
     arg_adapter := or_else (arg_adapter source) (arg_adapter target);
     arg_uri := or_else (arg_uri source) (arg_uri target);
     arg_store := or_else (arg_store source) (arg_store target) |}.

Definition uri_object (u : UriArg) : OptionsArg :=
  match u with
  | UriString s =>
      {| arg_namespace := None; arg_serialize := None; arg_deserialize := None;
         arg_adapter := None; arg_uri := Some s; arg_store := None |}
  | UriOptions o => o
  | UriAbsent => no_options
  end.

(** A string option used as a condition: absent and empty are falsy. *)
Definition truthy_string (s : option string) : bool :=
  match s with
  | Some x => negb (String.eqb x EmptyString)
  | None => false
  end.

(** The table of [load]. *)
Definition adapters : list (string * string) :=
  [ ("level", "./adapters/leveldb");
    ("leveldb", "./adapters/leveldb");
    ("mongo", "./adapters/mongodb");
    ("mongodb", "./adapters/mongodb");
    ("mysql", "./adapters/mysql");
    ("mysql2", "./adapters/mysql");
    ("postgres", "./adapters/postgres");
    ("postgresql", "./adapters/postgres");
    ("redis", "./adapters/redis");
    ("sqlite", "./adapters/sqlite");
    ("sqlite3", "./adapters/sqlite") ].

(** [adapters] is an object literal, so [adapters[name]] also finds what
    every object inherits from [Object.prototype]. *)
Definition Object_prototype : list string :=
  [ "constructor"; "__defineGetter__"; "__defineSetter__"; "hasOwnProperty";
    "__lookupGetter__"; "__lookupSetter__"; "isPrototypeOf";
    "propertyIsEnumerable"; "toString"; "valueOf"; "__proto__";
    "toLocaleString" ].

Inductive member : Type :=
| OwnPath (path : string) : member
| Inherited : member
| Undefined : member.

Fixpoint assoc (name : string) (table : list (string * string)) : option string :=
  match table with
  | [] => None
  | (n, p) :: rest => if String.eqb name n then Some p else assoc name rest
  end.

Definition mem_string (name : string) (l : list string) : bool :=
  existsb (String.eqb name) l.

(** [adapters[name]] *)
Definition adapters_get (name : string) : member :=
  match assoc name adapters with
  | Some p => OwnPath p
  | None => if mem_string name Object_prototype then Inherited else Undefined
  end.

(** ** Promises over a heap of stores *)

Fixpoint update {X : Type} (i : nat) (x : X) (l : list X) : list X :=
  match l, i with
  | [], _ => []
  | _ :: t, O => x :: t
  | y :: t, S j => y :: update j x t
  end.

Definition M (H X : Type) : Type := H -> outcome X * H.

Definition ret {H X : Type} (x : X) : M H X := fun h => (Resolved x, h).

Definition throw {H X : Type} (e : error) : M H X := fun h => (Rejected e, h).

Definition bind {H X Y : Type} (c : M H X) (k : X -> M H Y) : M H Y :=
  fun h =>
    match c h with
    | (Resolved x, h') => k x h'
    | (Rejected e, h') => (Rejected e, h')
    end.

Definition lift {H X : Type} (o : outcome X) : M H X :=
  match o with
  | Resolved x => ret x
  | Rejected e => throw e
  end.

Declare Scope promise_scope.
Delimit Scope promise_scope with promise.
Notation "x <- c ;; k" := (bind c (fun x => k))
  (at level 61, c at next level, right associativity) : promise_scope.
Notation "c ;; k" := (bind c (fun _ => k))
  (at level 61, right associativity) : promise_scope.

Local Open Scope promise_scope.

(** ** The facade *)

(** The modules under [./adapters] are not among these sources, so an
    adapter object is known only through what [index.js] calls on it: the
    optional [on], the assignment of [namespace], and [get], [set],
    [delete], [clear] and [all].  Each method takes the adapter's state and
    gives how its promise ends and the state afterwards. *)
Record Adapter (A : Type) : Type := {
  ad_on_error : A -> A;
  ad_set_namespace : string -> A -> A;
  ad_get : string -> A -> outcome jsval * A;
  ad_set : string -> jsval -> A -> outcome jsval * A;
  ad_delete : string -> A -> outcome jsval * A;
  ad_clear : A -> outcome jsval * A;
  ad_all : A -> outcome jsval * A
}.

Arguments ad_on_error {A} _ _.
Arguments ad_set_namespace {A} _ _ _.
Arguments ad_get {A} _ _ _.
Arguments ad_set {A} _ _ _ _.
Arguments ad_delete {A} _ _ _.
Arguments ad_clear {A} _ _.
Arguments ad_all {A} _ _.

(** A store object: a [Map] with the [namespace] property the
    constructor hangs on it, or an adapter. *)
Inductive storeobj (A : Type) : Type :=
| SMap (entries : Map.t) (ns : option string) : storeobj A
| SAdapter (a : A) : storeobj A.

Arguments SMap {A} entries ns.
Arguments SAdapter {A} a.

(** [{key, value}] *)
Definition element (k : string) (v : jsval) : jsval :=
  VObj [("key", VStr k); ("value", v)].

Fixpoint chars (s : string) : list jsval :=
  match s with
  | EmptyString => []
  | String c rest => VStr (String c EmptyString) :: chars rest
  end.

(** What [for (const x of v)] runs over. *)
Definition iterate (v : jsval) : outcome (list jsval) :=
  match v with
  | VArr items => Resolved items
  | VStr s => Resolved (chars s)
  | VBuffer bytes =>
      Resolved (List.map (fun b => VNum (inject_Z (Z.of_nat (nat_of_ascii b)))) bytes)
  | _ => Rejected TypeError
  end.

Section Facade.

(** The host's JSON functions, the default hooks. *)
Variable JSON_stringify : hook.
Variable JSON_parse : hook.

(** The adapter modules: the state of an adapter object, its methods,
    and [new (require(path))(options)]. *)
Variable A : Type.
Variable adp : Adapter A.
Variable require_new : string -> Options -> outcome A.

(** [util.math(value, operation, operand)] *)
Variable util_math : jsval -> string -> Q -> outcome jsval.

(** The product of two numbers as the host computes it: on doubles, the
    exact product rounded to the nearest double. *)
Variable times : Q -> Q -> Q.

Definition heap : Type := list (storeobj A).

Definition P (X : Type) : Type := M heap X.

(** A new object, at the next free reference. *)
Definition alloc (st : storeobj A) : P ref :=
  fun h => (Resolved (List.length h), h ++ [st]).

(** A method call on the store object [r] points to. *)
Definition on_store {X : Type} (r : option ref)
    (f : storeobj A -> outcome X * storeobj A) : P X :=
  fun h =>
    match r with
    | None => (Rejected TypeError, h)
    | Some i =>
        match nth_error h i with
        | None => (Rejected TypeError, h)
        | Some st => let (o, st') := f st in (o, update i st' h)
        end
    end.

(** [load(options)]: the adapter named by [options.adapter], or else by
    the scheme of [options.uri], when [adapters] has such a member; a new
    [Map] otherwise.  An inherited member is no module path, and [require]
    throws on it. *)
Definition load (options : Options) : P ref :=
  if truthy_string (adapter options) || truthy_string (uri options) then
    let adapter :=
      if truthy_string (adapter options)
      then match adapter options with Some a => a | None => EmptyString end
      else scheme_of (match uri options with Some u => u | None => EmptyString end) in
    match adapters_get adapter with
    | OwnPath path =>
        a <- lift (require_new path options) ;; alloc (SAdapter a)
    | Inherited => throw TypeError
    | Undefined => alloc (SMap [] None)
    end
  else alloc (SMap [] None).

Definition defaults (o : OptionsArg) : Options :=
  {| namespace := match arg_namespace o with Some n => n | None => "endb" end;
     serialize := match arg_serialize o with Some f => f | None => JSON_stringify end;
     deserialize := match arg_deserialize o with Some f => f | None => JSON_parse end;
     adapter := arg_adapter o;
     uri := arg_uri o;
     store := arg_store o |}.

Definition with_store (o : Options) (r : ref) : Options :=
  {| namespace := namespace o; serialize := serialize o;
     deserialize := deserialize o; adapter := adapter o; uri := uri o;
     store := Some r |}.

(** [new Endb(uri, options)].  A [Map] has no [on] method, so only an
    adapter gets the listener that forwards its errors. *)
Definition constructor (uri : UriArg) (options : OptionsArg) : P Endb :=
  let merged := defaults (assign (uri_object uri) options) in
  r <- match store merged with
       | Some r => ret r
       | None => load merged
       end ;;
  let this_options := with_store merged r in
  on_store (store this_options) (fun st =>
    match st with
    | SMap entries _ =>
        (Resolved tt, SMap entries (Some (namespace this_options)))
    | SAdapter a =>
        (Resolved tt,
         SAdapter (ad_set_namespace adp (namespace this_options)
                     (ad_on_error adp a)))
    end) ;;
  ret (Build_Endb this_options).

(** *** Method calls on the store object *)

Definition store_get (key : string) (st : storeobj A) : outcome jsval * storeobj A :=
  match st with
  | SMap entries _ => (Resolved (Map.get key entries), st)
  | SAdapter a => let (o, a') := ad_get adp key a in (o, SAdapter a')
  end.

(** [Map.prototype.set] returns the map itself; no caller reads it. *)
Definition store_set (key : string) (value : jsval) (st : storeobj A)
    : outcome jsval * storeobj A :=
  match st with
  | SMap entries ns => (Resolved VUndefined, SMap (Map.set key value entries) ns)
  | SAdapter a => let (o, a') := ad_set adp key value a in (o, SAdapter a')
  end.

Definition store_delete (key : string) (st : storeobj A) : outcome jsval * storeobj A :=
  match st with
  | SMap entries ns =>
      (Resolved (VBool (Map.has key entries)), SMap (Map.delete key entries) ns)
  | SAdapter a => let (o, a') := ad_delete adp key a in (o, SAdapter a')
  end.

Definition store_clear (st : storeobj A) : outcome jsval * storeobj A :=
  match st with
  | SMap entries ns => (Resolved VUndefined, SMap (Map.clear entries) ns)
  | SAdapter a => let (o, a') := ad_clear adp a in (o, SAdapter a')
  end.

(** *** The methods *)

Definition _addKeyPrefix (this : Endb) (key : string) : string :=
  namespace (options this) ++ ":" ++ key.

Definition _removeKeyPrefix (this : Endb) (key : string) : string :=
  replace (namespace (options this) ++ ":") EmptyString key.

(** The loop of [all] over the entries of a [Map]. *)
Fixpoint all_entries (this : Endb) (entries : Map.t) (arr : list jsval)
    : outcome (list jsval) :=
  match entries with
  | [] => Resolved arr
  | (key, value) :: rest =>
      match deserialize (options this) value with
      | Rejected e => Rejected e
      | Resolved d =>
          match dot_value d with
          | Rejected e => Rejected e
          | Resolved x =>
              all_entries this rest
                (arr ++ [element (_removeKeyPrefix this key) x])
          end
      end
  end.

Definition all (this : Endb) : P jsval :=
  on_store (store (options this)) (fun st =>
    match st with
    | SMap entries _ =>
        (match all_entries this entries [] with
         | Resolved arr => Resolved (VArr arr)
         | Rejected e => Rejected e
         end, st)
    | SAdapter a => let (o, a') := ad_all adp a in (o, SAdapter a')
    end).

Definition clear (this : Endb) : P jsval :=
  on_store (store (options this)) store_clear.

Definition delete (this : Endb) (key : string) : P jsval :=
  let key := _addKeyPrefix this key in
  on_store (store (options this)) (store_delete key).

(** The loop of [find] over the elements. *)
Fixpoint find_elements (fn : jsval -> jsval) (elements : list jsval)
    : outcome jsval :=
  match elements with
  | [] => Resolved VUndefined
  | element :: rest =>
      match dot_value element with
      | Rejected e => Rejected e
      | Resolved v => if truthy (fn v) then Resolved element
                      else find_elements fn rest
      end
  end.

(** [fn] takes its [this] first; [typeof thisArg !== undefined] compares
    a string with [undefined] and always holds, so [fn] is always bound. *)
Definition find (this : Endb) (fn : jsval -> jsval -> jsval) (thisArg : jsval)
    : P jsval :=
  let fn := fn thisArg in
  elements <- all this ;;
  items <- lift (iterate elements) ;;
  lift (find_elements fn items).

Definition get (this : Endb) (key : string) : P jsval :=
  let key := _addKeyPrefix this key in
  on_store (store (options this)) (store_get key).

(** [has] asks a [Map] directly; any other store is asked through
    [this.get], which prefixes the already prefixed key once more. *)
Definition has (this : Endb) (key : string) : P jsval :=
  let key := _addKeyPrefix this key in
  map <- on_store (store (options this)) (fun st =>
           match st with
           | SMap entries _ => (Resolved (Some (Map.has key entries)), st)
           | SAdapter _ => (Resolved None, st)
           end) ;;
  match map with
  | Some data => ret (VBool data)
  | None => data <- get this key ;; ret (VBool (typeof_object data))
  end.

Definition set (this : Endb) (key : string) (value : jsval) : P jsval :=
  let key := _addKeyPrefix this key in
  _ <- lift (serialize (options this) value) ;;
  _ <- on_store (store (options this)) (store_set key value) ;;
  ret (VBool true).

(** [random] is what [Math.random()] gives when it is called. *)
Definition math (this : Endb) (key operation : string) (operand : Q) (random : Q)
    : P jsval :=
  if String.eqb operation "random" || String.eqb operation "rand" then
    set this key (VNum (inject_Z (Math_round (times random operand))))
  else
    data <- get this key ;;
    result <- lift (util_math data operation operand) ;;
    set this key result.

(** *** Sequences of calls on one instance *)

Inductive call : Type :=
| CallAll : call
| CallClear : call
| CallDelete (key : string) : call
| CallFind (fn : jsval -> jsval -> jsval) (thisArg : jsval) : call
| CallGet (key : string) : call
| CallHas (key : string) : call
| CallMath (key operation : string) (operand random : Q) : call
| CallSet (key : string) (value : jsval) : call.

Definition run_call (this : Endb) (c : call) : P jsval :=
  match c with
  | CallAll => all this
  | CallClear => clear this
  | CallDelete key => delete this key
  | CallFind fn thisArg => find this fn thisArg
  | CallGet key => get this key
  | CallHas key => has this key
  | CallMath key operation operand random => math this key operation operand random
  | CallSet key value => set this key value
  end.

(** The heap after the calls, each awaited in turn, whether it resolved
    or was rejected. *)
Fixpoint run_calls (this : Endb) (cs : list call) (h : heap) : heap :=
  match cs with
  | [] => h
  | c :: rest => run_calls this rest (snd (run_call this c h))
  end.

(** Does the call set [key]?  [math] ends in a [set]. *)
Definition sets_key (key : string) (c : call) : bool :=
  match c with
  | CallSet k _ => String.eqb key k
  | CallMath k _ _ _ => String.eqb key k
  | _ => false
  end.

(** The store of [this] is the [Map] with these entries. *)
Definition backed_by_Map (this : Endb) (h : heap) (entries : Map.t) : Prop :=
  exists r ns, store (options this) = Some r
               /\ nth_error h r = Some (SMap entries ns).

(** After a call the store of [this], at [r], is still a Map, and if
    [frame] holds a key that was absent is still absent. *)
Definition kept (this : Endb) (r : ref) (ns : option string) (key : string)
    (entries : Map.t) (h' : heap) (frame : Prop) : Prop :=
  exists entries',
    nth_error h' r = Some (SMap entries' ns)
    /\ (frame ->
        Map.lookup (_addKeyPrefix this key) entries = None ->
        Map.lookup (_addKeyPrefix this key) entries' = None).

(** The options that lead to the in-memory fallback: no [adapter], no
    [store], and a [uri] that is absent or whose scheme [adapters] does
    not know, its inherited members included. *)
Definition falls_back (o : OptionsArg) : Prop :=
  arg_adapter o = None /\ arg_store o = None
  /\ match arg_uri o with
     | None => True
     | Some u => adapters_get (scheme_of u) = Undefined
     end.

(** *** multi *)

(** The object [multi] fills.  Assigning to [instances[name]] makes or
    replaces an own property, except that the name [__proto__] sets the
    prototype of the object and makes no property.  Own properties are
    kept here in the order of their first assignment; nothing below
    depends on the order. *)
Record Instances : Type := {
  own : list (string * Endb);
  proto : option Endb
}.

Fixpoint own_member (name : string) (members : list (string * Endb))
    : option Endb :=
  match members with
  | [] => None
  | (n, e) :: rest => if String.eqb name n then Some e else own_member name rest
  end.

Fixpoint put_member (name : string) (e : Endb) (members : list (string * Endb))
    : list (string * Endb) :=
  match members with
  | [] => [(name, e)]
  | (n, e') :: rest =>
      if String.eqb name n then (n, e) :: rest
      else (n, e') :: put_member name e rest
  end.

(** [instances[name] = e] *)
Definition assign_member (name : string) (e : Endb) (instances : Instances)
    : Instances :=
  if String.eqb name "__proto__"
  then {| own := own instances; proto := Some e |}
  else {| own := put_member name e (own instances); proto := proto instances |}.

(** The loop of [multi]: [new Endb(options)] passes the options as the
    first argument and leaves the second to its default. *)
Fixpoint multi_names (names : list string) (options : OptionsArg)
    (instances : Instances) : P Instances :=
  match names with
  | [] => ret instances
  | name :: rest =>
      e <- constructor (UriOptions options) no_options ;;
      multi_names rest options (assign_member name e instances)
  end.

Definition multi (names : list string) (options : OptionsArg) : P Instances :=
  multi_names names options {| own := []; proto := None |}.

End Facade.

Arguments multi_names JSON_stringify JSON_parse {A} adp require_new names options instances _.
Arguments multi JSON_stringify JSON_parse {A} adp require_new names options _.

(** Is there a colon in the string? *)
Fixpoint has_colon (s : string) : bool :=
  match s with
  | EmptyString => false
  | String c rest => Ascii.eqb c ":"%char || has_colon rest
  end.

Arguments alloc {A} st _.
Arguments on_store {A X} r f _.
Arguments load {A} require_new options _.
Arguments constructor JSON_stringify JSON_parse {A} adp require_new uri options _.
Arguments store_get {A} adp key st.
Arguments store_set {A} adp key value st.
Arguments store_delete {A} adp key st.
Arguments store_clear {A} adp st.
Arguments all {A} adp this _.
Arguments clear {A} adp this _.
Arguments delete {A} adp this key _.
Arguments find {A} adp this fn thisArg _.
Arguments get {A} adp this key _.
Arguments has {A} adp this key _.
Arguments set {A} adp this key value _.
Arguments math {A} adp util_math times this key operation operand random _.
Arguments run_call {A} adp util_math times this c _.
Arguments run_calls {A} adp util_math times this cs h.
Arguments backed_by_Map {A} this h entries.
Arguments kept {A} this r ns key entries h' frame.

(** ** A host to run examples on *)

Module Sample.

Definition quote : ascii := ascii_of_nat 34.
Definition backslash : ascii := ascii_of_nat 92.

(** The characters [JSON.stringify] copies as they are. *)
Definition plain (c : ascii) : bool :=
  let n := nat_of_ascii c in
  Nat.leb 32 n && Nat.ltb n 127 && negb (Ascii.eqb c quote)
  && negb (Ascii.eqb c backslash).

Fixpoint escape (s : string) : option string :=
  match s with
  | EmptyString => Some EmptyString
  | String c rest =>
      match escape rest with
      | None => None
      | Some t =>
          if plain c then Some (String c t)
          else if Ascii.eqb c quote || Ascii.eqb c backslash
               then Some (String backslash (String c t))
               else None
      end
  end.

Definition unmodelled : error := HostError "outside the fragment".

Definition quoted (s : string) : string :=
  String quote s ++ String quote EmptyString.

(** [JSON.stringify] on [undefined], [null], booleans, integers below
    [10^21] in size and ASCII strings without control characters; the
    rest of the function is left out. *)
Definition stringify : hook := fun v =>
  match v with
  | VUndefined => Resolved VUndefined
  | VNull => Resolved (VStr "null")
  | VBool true => Resolved (VStr "true")
  | VBool false => Resolved (VStr "false")
  | VNum q =>
      if Pos.eqb (Qden q) 1 && Z.ltb (Z.abs (Qnum q)) (10 ^ 21)
      then Resolved (VStr (NilZero.string_of_int (Z.to_int (Qnum q))))
      else Rejected unmodelled
  | VStr s =>
      match escape s with
      | Some t => Resolved (VStr (quoted t))
      | None => Rejected unmodelled
      end
  | _ => Rejected unmodelled
  end.

(** Can a JSON text start with this character? *)
Definition may_start_json (c : ascii) : bool :=
  let n := nat_of_ascii c in
  Nat.eqb n 32 || Nat.eqb n 9 || Nat.eqb n 10 || Nat.eqb n 13
  || (Nat.leb 48 n && Nat.leb n 57)
  || existsb (Ascii.eqb c) [ "-"%char; quote; "["%char; "{"%char;
                             "t"%char; "f"%char; "n"%char ].

(** [JSON.parse] on the three literals and on the texts no JSON value
    can start; the rest of the function is left out. *)
Definition parse : hook := fun v =>
  match v with
  | VUndefined => Rejected SyntaxError
  | VNull => Resolved VNull
  | VBool b => Resolved (VBool b)
  | VStr s =>
      if String.eqb s "null" then Resolved VNull
      else if String.eqb s "true" then Resolved (VBool true)
      else if String.eqb s "false" then Resolved (VBool false)
      else match s with
           | EmptyString => Rejected SyntaxError
           | String c _ =>
               if may_start_json c then Rejected unmodelled
               else Rejected SyntaxError
           end
  | _ => Rejected unmodelled
  end.

(** No adapter module is installed. *)
Definition no_module : string -> Options -> outcome unit :=
  fun _ _ => Rejected (HostError "Cannot find module").

Definition no_adapter : Adapter unit :=
  {| ad_on_error := fun a => a;
     ad_set_namespace := fun _ a => a;
     ad_get := fun _ a => (Rejected TypeError, a);
     ad_set := fun _ _ a => (Rejected TypeError, a);
     ad_delete := fun _ a => (Rejected TypeError, a);
     ad_clear := fun a => (Rejected TypeError, a);
     ad_all := fun a => (Rejected TypeError, a) |}.

(** An adapter that keeps the calls of [set] it received, latest first. *)
Definition recorder : Adapter (list (string * jsval)) :=
  {| ad_on_error := fun a => a;
     ad_set_namespace := fun _ a => a;
     ad_get := fun k a => (Resolved (Map.get k a), a);
     ad_set := fun k v a => (Resolved VUndefined, (k, v) :: a);
     ad_delete := fun k a => (Resolved (VBool (Map.has k a)), Map.delete k a);
     ad_clear := fun a => (Resolved VUndefined, []);
     ad_all := fun a =>
       (Resolved (VArr (List.map (fun kv => element (fst kv) (snd kv)) a)), a) |}.

Definition no_math : jsval -> string -> Q -> outcome jsval :=
  fun _ _ _ => Rejected TypeError.

(** A [deserialize] hook that wraps what it is given. *)
Definition envelope : hook := fun v => Resolved (VObj [("value", v)]).

(** [v => v === 'bar'] *)
Definition is_bar (_ v : jsval) : jsval :=
  match v with
  | VStr s => VBool (String.eqb s "bar")
  | _ => VBool false
  end.

Definition instance (ns : string) (d : hook) (r : ref) : Endb :=
  {| options := {| namespace := ns; serialize := stringify; deserialize := d;
                   adapter := None; uri := None; store := Some r |} |}.

(** [new Endb()] in an empty heap, and the heap it leaves. *)
Definition endb : Endb := instance "endb" parse 0.
Definition fresh : list (storeobj unit) := [SMap [] (Some "endb")].

Definition wrapped : Endb := instance "endb" envelope 0.

(** Two instances on one store. *)
Definition sharing (ns : string) : OptionsArg :=
  {| arg_namespace := Some ns; arg_serialize := None; arg_deserialize := None;
     arg_adapter := None; arg_uri := None; arg_store := Some 0 |}.
Definition users : Endb := instance "users" parse 0.
Definition members : Endb := instance "members" parse 0.

Definition the_store : OptionsArg := sharing "endb".
Definition used : list (storeobj unit) :=
  [SMap [("endb:foo", VStr "bar")] None].


Definition holding : list (storeobj unit) :=
  [SMap [("endb:foo", VStr "bar")] (Some "endb")].

Definition shared : list (storeobj unit) :=
  [SMap [("users:a", VNum (inject_Z 1)); ("members:b", VNum (inject_Z 2))]
     (Some "members")].

(** An adapter whose every method resolves to [undefined]. *)
Definition mute : Adapter unit :=
  {| ad_on_error := fun a => a;
     ad_set_namespace := fun _ a => a;
     ad_get := fun _ a => (Resolved VUndefined, a);
     ad_set := fun _ _ a => (Resolved VUndefined, a);
     ad_delete := fun _ a => (Resolved VUndefined, a);
     ad_clear := fun a => (Resolved VUndefined, a);
     ad_all := fun a => (Resolved VUndefined, a) |}.

(** Modules for [recorder]: a new adapter holds one entry, which names
    the module it came from. *)
Definition modules : string -> Options -> outcome (list (string * jsval)) :=
  fun path _ => Resolved [("module", VStr path)].

(** A [util.math] that knows ['add'] on numbers and nothing else. *)
Definition adding : jsval -> string -> Q -> outcome jsval :=
  fun data operation operand =>
    match data with
    | VNum q =>
        if String.eqb operation "add" then Resolved (VNum (Qplus q operand))
        else Rejected TypeError
    | _ => Rejected TypeError
    end.

Definition with_adapter (name : string) : OptionsArg :=
  {| arg_namespace := None; arg_serialize := None; arg_deserialize := None;
     arg_adapter := Some name; arg_uri := None; arg_store := None |}.

(** A map with an entry of the namespace [endb] and one of another. *)
Definition mixed : list (storeobj unit) :=
  [SMap [("endb:foo", VStr "bar"); ("users:a", VStr "baz")] (Some "endb")].

Definition counting : list (storeobj unit) :=
  [SMap [("endb:num", VNum (inject_Z 10))] (Some "endb")].

(** A heap with one adapter of [modules] in it. *)
Definition holding_records : list (storeobj (list (string * jsval))) :=
  [SAdapter [("module", VStr "./adapters/redis")]].

(** What [multi(['users', 'members'])] returns in an empty heap. *)
Definition pair : Instances :=
  {| own := [("users", instance "endb" parse 0);
             ("members", instance "endb" parse 1)];
     proto := None |}.

End Sample.

(** * Properties *)

(** ** Strings *)

Lemma prefix_append (p s : string) : String.prefix p (p ++ s)%string = true.
Proof.
  induction p as [|c p IH]; simpl.
  - now destruct s.
  - destruct (ascii_dec c c) as [_|ne]; [exact IH | now elim ne].
Qed.

Lemma drop_append (p s : string) : drop (String.length p) (p ++ s)%string = s.
Proof. induction p as [|c p IH]; simpl; [reflexivity | exact IH]. Qed.

Lemma replace_unfold (pat rep s : string) :
  replace pat rep s =
  if String.prefix pat s then (rep ++ drop (String.length pat) s)%string
  else match s with
       | EmptyString => EmptyString
       | String c s' => String c (replace pat rep s')
       end.
Proof. now destruct s. Qed.

Lemma replace_leading (p s : string) : replace p EmptyString (p ++ s)%string = s.
Proof. rewrite replace_unfold, prefix_append. simpl. apply drop_append. Qed.

Lemma append_cancel (p a b : string) : (p ++ a = p ++ b)%string -> a = b.
Proof.
  induction p as [|c p IH]; simpl; intros E; [exact E|].
  injection E as E. now apply IH.
Qed.

Lemma append_assoc (a b c : string) : ((a ++ b) ++ c = a ++ (b ++ c))%string.
Proof. induction a as [|x a IH]; simpl; [reflexivity | now rewrite IH]. Qed.

(** ** The Map *)

Lemma lookup_set_same (k : string) (v : jsval) (m : Map.t) :
  Map.lookup k (Map.set k v m) = Some v.
Proof.
  induction m as [|[k' v'] m IH]; simpl.
  - now rewrite String.eqb_refl.
  - destruct (String.eqb k k') eqn:E; simpl; rewrite E; [reflexivity | exact IH].
Qed.

Lemma lookup_set_other (k k' : string) (v : jsval) (m : Map.t) :
  k <> k' -> Map.lookup k (Map.set k' v m) = Map.lookup k m.
Proof.
  intros ne. induction m as [|[k0 v0] m IH]; simpl.
  - apply String.eqb_neq in ne. now rewrite ne.
  - destruct (String.eqb k' k0) eqn:E; simpl.
    + apply String.eqb_eq in E. subst k0.
      apply String.eqb_neq in ne. now rewrite ne.
    + now rewrite IH.
Qed.

Lemma lookup_delete_same (k : string) (m : Map.t) :
  Map.lookup k (Map.delete k m) = None.
Proof.
  induction m as [|[k' v'] m IH]; simpl; [reflexivity|].
  destruct (String.eqb k k') eqn:E; simpl; [exact IH | now rewrite E].
Qed.

Lemma lookup_delete_absent (k k' : string) (m : Map.t) :
  Map.lookup k m = None -> Map.lookup k (Map.delete k' m) = None.
Proof.
  induction m as [|[k0 v0] m IH]; simpl; [reflexivity|].
  destruct (String.eqb k k0) eqn:E; [discriminate|]. intros Hm.
  destruct (String.eqb k' k0); simpl; [now apply IH|].
  rewrite E. now apply IH.
Qed.

(** ** The heap *)

Lemma nth_error_update {X : Type} (i : nat) (x y : X) (h : list X) :
  nth_error h i = Some y -> nth_error (update i x h) i = Some x.
Proof.
  revert i. induction h as [|z h IH]; intros [|i]; simpl; try discriminate.
  - reflexivity.
  - apply IH.
Qed.

Lemma update_update {X : Type} (i : nat) (x y : X) (h : list X) :
  update i x (update i y h) = update i x h.
Proof.
  revert i. induction h as [|z h IH]; intros [|i]; simpl; try reflexivity.
  now rewrite IH.
Qed.

Lemma update_same {X : Type} (i : nat) (x : X) (h : list X) :
  nth_error h i = Some x -> update i x h = h.
Proof.
  revert i. induction h as [|z h IH]; intros [|i]; simpl; try reflexivity.
  - now intros [= ->].
  - intros E. now rewrite IH.
Qed.

Lemma nth_error_last {X : Type} (h : list X) (x : X) :
  nth_error (h ++ [x]) (List.length h) = Some x.
Proof. induction h as [|z h IH]; simpl; [reflexivity | exact IH]. Qed.

Lemma update_last {X : Type} (h : list X) (x y : X) :
  update (List.length h) y (h ++ [x]) = h ++ [y].
Proof. induction h as [|z h IH]; simpl; [reflexivity | now rewrite IH]. Qed.

(** ** Rounding *)

Lemma Math_round_monotone (x y : Q) :
  (x <= y)%Q -> (Math_round x <= Math_round y)%Z.
Proof.
  intros le. apply Qfloor_resp_le. apply Qplus_le_compat; [exact le|].
  apply Qle_refl.
Qed.

Lemma Math_round_integer (m : Z) : Math_round (inject_Z m) = m.
Proof.
  unfold Math_round, Qplus, Qfloor, inject_Z. simpl.
  replace (m * 2 + 1)%Z with (1 + m * 2)%Z by lia.
  rewrite Z.div_add by lia. reflexivity.
Qed.

Lemma Math_round_nonneg (x : Q) : (0 <= x)%Q -> (0 <= Math_round x)%Z.
Proof.
  intros le. rewrite <- (Math_round_integer 0).
  now apply Math_round_monotone.
Qed.

Lemma product_below (random operand : Q) :
  (0 <= random)%Q -> (random < 1)%Q -> (0 <= operand)%Q ->
  (0 <= random * operand)%Q /\ (random * operand <= operand)%Q.
Proof.
  intros r0 r1 n0. split.
  - now apply Qmult_le_0_compat.
  - rewrite <- (Qmult_1_l operand) at 2.
    apply Qmult_le_compat_r; [now apply Qlt_le_weak | exact n0].
Qed.

Section Properties.

Variable JSON_stringify : hook.
Variable JSON_parse : hook.
Variable A : Type.
Variable adp : Adapter A.
Variable require_new : string -> Options -> outcome A.
Variable util_math : jsval -> string -> Q -> outcome jsval.
Variable times : Q -> Q -> Q.

Lemma on_store_at {X : Type} (r : ref) (st : storeobj A)
    (f : storeobj A -> outcome X * storeobj A) (h : list (storeobj A)) :
  nth_error h r = Some st ->
  on_store (Some r) f h = (fst (f st), update r (snd (f st)) h).
Proof. intros E. unfold on_store. rewrite E. now destruct (f st). Qed.

Lemma strip_prefix (this : Endb) (k : string) :
  _removeKeyPrefix this (_addKeyPrefix this k) = k.
Proof.
  unfold _removeKeyPrefix, _addKeyPrefix.
  rewrite <- append_assoc. apply replace_leading.
Qed.

(** *** The methods on a Map *)

Section OnMap.

Variable this : Endb.
Variable h : list (storeobj A).
Variable r : ref.
Variable entries : Map.t.
Variable ns : option string.
Hypothesis store_is : store (options this) = Some r.
Hypothesis at_r : nth_error h r = Some (SMap entries ns).

Lemma get_Map (key : string) :
  get adp this key h
  = (Resolved (Map.get (_addKeyPrefix this key) entries), h).
Proof.
  unfold get. rewrite store_is, (on_store_at _ _ _ _ at_r). simpl.
  now rewrite (update_same _ _ _ at_r).
Qed.

Lemma has_Map (key : string) :
  has adp this key h
  = (Resolved (VBool (Map.has (_addKeyPrefix this key) entries)), h).
Proof.
  unfold has, bind. rewrite store_is, (on_store_at _ _ _ _ at_r). simpl.
  now rewrite (update_same _ _ _ at_r).
Qed.

Lemma delete_Map (key : string) :
  delete adp this key h
  = (Resolved (VBool (Map.has (_addKeyPrefix this key) entries)),
     update r (SMap (Map.delete (_addKeyPrefix this key) entries) ns) h).
Proof.
  unfold delete. now rewrite store_is, (on_store_at _ _ _ _ at_r).
Qed.

Lemma clear_Map :
  clear adp this h = (Resolved VUndefined, update r (SMap [] ns) h).
Proof.
  unfold clear. now rewrite store_is, (on_store_at _ _ _ _ at_r).
Qed.

Lemma all_Map :
  all adp this h
  = (match all_entries this entries [] with
     | Resolved arr => Resolved (VArr arr)
     | Rejected e => Rejected e
     end, h).
Proof.
  unfold all. rewrite store_is, (on_store_at _ _ _ _ at_r). simpl.
  now rewrite (update_same _ _ _ at_r).
Qed.

Lemma set_Map (key : string) (v s : jsval) :
  serialize (options this) v = Resolved s ->
  set adp this key v h
  = (Resolved (VBool true),
     update r (SMap (Map.set (_addKeyPrefix this key) v entries) ns) h).
Proof.
  intros ser. unfold set, bind. rewrite ser. simpl.
  now rewrite store_is, (on_store_at _ _ _ _ at_r).
Qed.

Lemma set_rejected (key : string) (v : jsval) (e : error) :
  serialize (options this) v = Rejected e ->
  set adp this key v h = (Rejected e, h).
Proof. intros ser. unfold set, bind. now rewrite ser. Qed.

End OnMap.

Lemma prefix_injective (this : Endb) (k k' : string) :
  _addKeyPrefix this k = _addKeyPrefix this k' -> k = k'.
Proof.
  unfold _addKeyPrefix. intros E.
  apply append_cancel in E. now apply append_cancel in E.
Qed.

(** *** What a call leaves of a Map *)

Section Frame.

Variable this : Endb.
Variable r : ref.
Variable ns : option string.
Hypothesis store_is : store (options this) = Some r.

Lemma kept_same (key : string) (entries : Map.t) (h : list (storeobj A))
    (frame : Prop) :
  nth_error h r = Some (SMap entries ns) -> kept this r ns key entries h frame.
Proof. intros at_r. exists entries. now split. Qed.

Lemma set_kept (key k' : string) (v : jsval) (entries : Map.t)
    (h : list (storeobj A)) :
  nth_error h r = Some (SMap entries ns) ->
  kept this r ns key entries (snd (set adp this k' v h)) (key <> k').
Proof.
  intros at_r. destruct (serialize (options this) v) as [s|e] eqn:ser.
  - rewrite (set_Map this h r entries ns store_is at_r k' v s ser). simpl.
    eexists. split; [apply (nth_error_update _ _ _ _ at_r)|].
    intros ne absent. rewrite lookup_set_other; [exact absent|].
    intros E. apply ne. now apply (prefix_injective this).
  - rewrite (set_rejected this h k' v e ser). now apply kept_same.
Qed.

Lemma run_call_kept (key : string) (c : call) (entries : Map.t)
    (h : list (storeobj A)) :
  nth_error h r = Some (SMap entries ns) ->
  kept this r ns key entries (snd (run_call adp util_math times this c h))
    (sets_key key c = false).
Proof.
  intros at_r. destruct c as [| |k'|fn thisArg|k'|k'|k' op n rnd|k' v]; simpl.
  - rewrite (all_Map this h r entries ns store_is at_r).
    now apply kept_same.
  - rewrite (clear_Map this h r entries ns store_is at_r). simpl.
    exists []. split; [apply (nth_error_update _ _ _ _ at_r) | reflexivity].
  - rewrite (delete_Map this h r entries ns store_is at_r). simpl.
    eexists. split; [apply (nth_error_update _ _ _ _ at_r)|].
    intros _. apply lookup_delete_absent.
  - unfold find, bind.
    rewrite (all_Map this h r entries ns store_is at_r).
    destruct (all_entries this entries []) as [arr|e]; simpl;
      [|now apply kept_same].
    destruct (find_elements (fn thisArg) arr); now apply kept_same.
  - rewrite (get_Map this h r entries ns store_is at_r).
    now apply kept_same.
  - rewrite (has_Map this h r entries ns store_is at_r).
    now apply kept_same.
  - assert (frame_of : sets_key key (CallMath k' op n rnd) = false -> key <> k')
      by (simpl; intros E; now apply String.eqb_neq).
    unfold math.
    destruct (String.eqb op "random" || String.eqb op "rand").
    + destruct (set_kept key k' (VNum (inject_Z (Math_round (times rnd n))))
                  entries h at_r) as [entries' [at' keep]].
      exists entries'. split; [exact at' | auto].
    + unfold bind.
      rewrite (get_Map this h r entries ns store_is at_r).
      destruct (util_math (Map.get (_addKeyPrefix this k') entries) op n)
        as [x|e]; simpl; [|now apply kept_same].
      destruct (set_kept key k' x entries h at_r) as [entries' [at' keep]].
      exists entries'. split; [exact at' | auto].
  - destruct (set_kept key k' v entries h at_r) as [entries' [at' keep]].
    exists entries'. split; [exact at'|].
    intros E. apply keep. now apply String.eqb_neq.
Qed.

Lemma run_calls_kept (key : string) (cs : list call) (entries : Map.t)
    (h : list (storeobj A)) :
  nth_error h r = Some (SMap entries ns) ->
  kept this r ns key entries (run_calls adp util_math times this cs h)
    (forallb (fun c => negb (sets_key key c)) cs = true).
Proof.
  revert entries h. induction cs as [|c cs IH]; intros entries h at_r; simpl.
  - now apply kept_same.
  - destruct (run_call_kept key c entries h at_r) as [e1 [at1 keep1]].
    destruct (IH e1 _ at1) as [e2 [at2 keep2]].
    exists e2. split; [exact at2|].
    intros ok absent. apply andb_prop in ok. destruct ok as [ok1 ok2].
    apply keep2; [exact ok2|]. apply keep1; [|exact absent].
    now apply negb_true_iff.
Qed.

End Frame.

(** *** Construction *)

Lemma constructor_Map (first : UriArg) (opts : OptionsArg)
    (h : list (storeobj A)) :
  let merged := defaults JSON_stringify JSON_parse
                  (assign (uri_object first) opts) in
  falls_back (assign (uri_object first) opts) ->
  constructor JSON_stringify JSON_parse adp require_new first opts h
  = (Resolved (Build_Endb (with_store merged (List.length h))),
     h ++ [SMap [] (Some (namespace merged))]).
Proof.
  intros merged [no_adapter [no_store no_scheme]].
  assert (adapter_is : adapter merged = None) by exact no_adapter.
  assert (store_is : store merged = None) by exact no_store.
  assert (uri_is : uri merged = arg_uri (assign (uri_object first) opts))
    by reflexivity.
  assert (loaded : load require_new merged h
                   = (Resolved (List.length h), h ++ [SMap [] None])).
  { unfold load. rewrite adapter_is, uri_is.
    destruct (arg_uri (assign (uri_object first) opts)) as [u|];
      [|reflexivity].
    cbn [truthy_string orb].
    destruct (negb (String.eqb u EmptyString)); [|reflexivity].
    now rewrite no_scheme. }
  unfold constructor, bind. fold merged.
  rewrite store_is, loaded.
  cbv beta iota zeta.
  change (store (with_store merged (List.length h)))
    with (Some (List.length h)).
  rewrite (on_store_at _ _ _ _ (nth_error_last h _)). simpl.
  now rewrite update_last.
Qed.


Lemma get_after_set (this : Endb) (h : list (storeobj A)) (r : ref)
    (entries : Map.t) (ns : option string) (k : string) (v s : jsval) :
  store (options this) = Some r ->
  nth_error h r = Some (SMap entries ns) ->
  serialize (options this) v = Resolved s ->
  exists h',
    set adp this k v h = (Resolved (VBool true), h')
    /\ nth_error h' r
       = Some (SMap (Map.set (_addKeyPrefix this k) v entries) ns)
    /\ get adp this k h' = (Resolved v, h')
    /\ has adp this k h' = (Resolved (VBool true), h').
Proof.
  intros store_is at_r ser. eexists. split; [|split; [|split]].
  - apply (set_Map this h r entries ns store_is at_r k v s ser).
  - apply (nth_error_update _ _ _ _ at_r).
  - rewrite (get_Map this _ r _ ns store_is (nth_error_update _ _ _ _ at_r)).
    unfold Map.get. now rewrite lookup_set_same.
  - rewrite (has_Map this _ r _ ns store_is (nth_error_update _ _ _ _ at_r)).
    unfold Map.has. now rewrite lookup_set_same.
Qed.

(** C1: on an instance constructed without adapter, uri or options, in
    whatever state its own calls have left the store, [set(k, v)] of a
    value [JSON.stringify] accepts resolves to [true] and [get(k)] then
    resolves to [v] itself. *)
Theorem set_then_get (h0 h1 : list (storeobj A)) (this : Endb)
    (calls : list call) (k : string) (v s : jsval) :
  constructor JSON_stringify JSON_parse adp require_new UriAbsent no_options h0
  = (Resolved this, h1) ->
  JSON_stringify v = Resolved s ->
  exists h',
    set adp this k v (run_calls adp util_math times this calls h1)
    = (Resolved (VBool true), h')
    /\ get adp this k h' = (Resolved v, h').
Proof.
  intros built ser.
  rewrite (constructor_Map UriAbsent no_options h0) in built;
    [|repeat split].
  injection built as <- <-.
  match goal with
  | |- context [Build_Endb ?o] => set (this := Build_Endb o) in *
  end.
  destruct (run_calls_kept this (List.length h0) (Some "endb") eq_refl k
              calls [] _ (nth_error_last h0 (SMap [] (Some "endb"))))
    as [entries [at_r _]].
  destruct (get_after_set this _ _ entries _ k v s eq_refl at_r ser)
    as [h' [set_ok [_ [get_ok _]]]].
  exists h'. now split.
Qed.

(** C4: [set] calls the serialize hook, so a throw of the hook rejects
    the call, but whatever the hook returns the store's [set] is given
    the prefixed key and the value as it came in. *)
Theorem set_passes_raw_value (this : Endb) (h : list (storeobj A)) (r : ref)
    (st : storeobj A) (key : string) (value : jsval) :
  store (options this) = Some r ->
  nth_error h r = Some st ->
  (forall e, serialize (options this) value = Rejected e ->
             set adp this key value h = (Rejected e, h))
  /\ (forall s, serialize (options this) value = Resolved s ->
        set adp this key value h
        = (match fst (store_set adp (_addKeyPrefix this key) value st) with
           | Resolved _ => Resolved (VBool true)
           | Rejected e => Rejected e
           end,
           update r (snd (store_set adp (_addKeyPrefix this key) value st)) h)).
Proof.
  intros store_is at_r. split.
  - intros e ser. now apply set_rejected.
  - intros s ser. unfold set, bind. rewrite ser. simpl.
    rewrite store_is, (on_store_at _ _ _ _ at_r).
    now destruct (fst (store_set adp (_addKeyPrefix this key) value st)).
Qed.

(** C6: on a Map, [delete(k)] resolves to whether the map has an entry
    under the prefixed key.  Afterwards, as long as no call sets [k],
    [get(k)] resolves to [undefined] and [delete(k)] to [false]; and
    right after a [set(k, v)] that resolved, [delete(k)] resolves to
    [true]. *)
Theorem delete_true_once (this : Endb) (h : list (storeobj A))
    (entries : Map.t) (k : string) :
  backed_by_Map this h entries ->
  exists h1,
    delete adp this k h
    = (Resolved (VBool (Map.has (_addKeyPrefix this k) entries)), h1)
    /\ (forall calls,
          forallb (fun c => negb (sets_key k c)) calls = true ->
          let h2 := run_calls adp util_math times this calls h1 in
          get adp this k h2 = (Resolved VUndefined, h2)
          /\ exists h3, delete adp this k h2 = (Resolved (VBool false), h3))
    /\ (forall v s,
          serialize (options this) v = Resolved s ->
          exists h' h'',
            set adp this k v h = (Resolved (VBool true), h')
            /\ delete adp this k h' = (Resolved (VBool true), h'')).
Proof.
  intros [r [ns [store_is at_r]]]. eexists. split; [|split].
  - apply (delete_Map this h r entries ns store_is at_r).
  - intros calls quiet h2.
    destruct (run_calls_kept this r ns store_is k calls
                (Map.delete (_addKeyPrefix this k) entries) _
                (nth_error_update r (SMap (Map.delete (_addKeyPrefix this k)
                                             entries) ns) _ h at_r))
      as [e2 [at2 keep]].
    specialize (keep quiet (lookup_delete_same _ _)).
    split.
    + subst h2. rewrite (get_Map this _ r e2 ns store_is at2).
      unfold Map.get. now rewrite keep.
    + eexists. subst h2. rewrite (delete_Map this _ r e2 ns store_is at2).
      unfold Map.has. now rewrite keep.
  - intros v s ser.
    destruct (get_after_set this h r entries ns k v s store_is at_r ser)
      as [h' [set_ok [at' _]]].
    exists h'. eexists. split; [exact set_ok|].
    rewrite (delete_Map this _ r _ ns store_is at').
    unfold Map.has. now rewrite lookup_set_same.
Qed.

(** C7: on an instance constructed onto the in-memory fallback, as long
    as no call has set [k], [has(k)] resolves to [false]; and in any
    state, right after a [set(k, v)] that resolved, [has(k)] resolves to
    [true]. *)
Theorem has_before_and_after_set (first : UriArg) (opts : OptionsArg)
    (h0 h1 : list (storeobj A)) (this : Endb) (calls : list call)
    (k : string) :
  falls_back (assign (uri_object first) opts) ->
  constructor JSON_stringify JSON_parse adp require_new first opts h0
  = (Resolved this, h1) ->
  let h := run_calls adp util_math times this calls h1 in
  (forallb (fun c => negb (sets_key k c)) calls = true ->
   has adp this k h = (Resolved (VBool false), h))
  /\ (forall v s,
        serialize (options this) v = Resolved s ->
        exists h',
          set adp this k v h = (Resolved (VBool true), h')
          /\ has adp this k h' = (Resolved (VBool true), h')).
Proof.
  intros fb built h.
  rewrite (constructor_Map first opts h0 fb) in built.
  injection built as <- <-.
  match goal with
  | |- context [Build_Endb ?o] => set (this := Build_Endb o) in *
  end.
  match goal with
  | h := run_calls _ _ _ _ _ (_ ++ [SMap [] ?n]) |- _ =>
      destruct (run_calls_kept this (List.length h0) n eq_refl k calls []
                  _ (nth_error_last h0 (SMap [] n))) as [entries [at_r keep]]
  end.
  fold h in at_r. split.
  - intros quiet. rewrite (has_Map this h _ entries _ eq_refl at_r).
    unfold Map.has. now rewrite (keep quiet eq_refl).
  - intros v s ser.
    destruct (get_after_set this h _ entries _ k v s eq_refl at_r ser)
      as [h' [set_ok [_ [_ has_ok]]]].
    exists h'. now split.
Qed.

(** C10: [clear] on a Map empties the whole map whatever the prefixes of
    its keys, so another instance on the same store, under any
    namespace, finds nothing left. *)
Theorem clear_ignores_namespace (this other : Endb) (h : list (storeobj A))
    (r : ref) (entries : Map.t) (ns : option string) :
  store (options this) = Some r ->
  store (options other) = Some r ->
  nth_error h r = Some (SMap entries ns) ->
  exists h',
    clear adp this h = (Resolved VUndefined, h')
    /\ nth_error h' r = Some (SMap [] ns)
    /\ all adp other h' = (Resolved (VArr []), h')
    /\ forall k,
         get adp other k h' = (Resolved VUndefined, h')
         /\ has adp other k h' = (Resolved (VBool false), h').
Proof.
  intros store_is shared at_r. eexists. split; [|split; [|split]].
  - apply (clear_Map this h r entries ns store_is at_r).
  - apply (nth_error_update _ _ _ _ at_r).
  - now rewrite (all_Map other _ r [] ns shared (nth_error_update _ _ _ _ at_r)).
  - intros k. split.
    + now rewrite (get_Map other _ r [] ns shared (nth_error_update _ _ _ _ at_r)).
    + now rewrite (has_Map other _ r [] ns shared (nth_error_update _ _ _ _ at_r)).
Qed.


(** C5, amended: when no [adapter] and no [store] is given and the uri
    is absent or has a scheme that is neither in the table nor a name
    every object inherits, the constructor throws nothing and the store
    is a new, empty Map. *)
Theorem unknown_scheme_falls_back (first : UriArg) (opts : OptionsArg)
    (h : list (storeobj A)) :
  let o := assign (uri_object first) opts in
  arg_adapter o = None ->
  arg_store o = None ->
  (forall u, arg_uri o = Some u ->
             assoc (scheme_of u) adapters = None
             /\ mem_string (scheme_of u) Object_prototype = false) ->
  exists this,
    constructor JSON_stringify JSON_parse adp require_new first opts h
    = (Resolved this, h ++ [SMap [] (Some (namespace (options this)))])
    /\ store (options this) = Some (List.length h).
Proof.
  intros o no_adapter no_store unknown.
  assert (fb : falls_back o).
  { split; [exact no_adapter | split; [exact no_store|]].
    destruct (arg_uri o) as [u|]; [|exact I].
    destruct (unknown u eq_refl) as [not_own not_inherited].
    unfold adapters_get. now rewrite not_own, not_inherited. }
  exists (Build_Endb (with_store (defaults JSON_stringify JSON_parse o)
                        (List.length h))).
  split; [exact (constructor_Map first opts h fb) | reflexivity].
Qed.

(** C2: on an instance constructed without adapter, uri or options,
    [all()] after [set(k, v)] gives [JSON.parse] the value as it was
    stored: it is rejected when the parse throws, and otherwise holds
    the [value] property of what was parsed, under the stripped key. *)
Theorem all_after_set (h0 h1 : list (storeobj A)) (this : Endb)
    (k : string) (v s : jsval) :
  constructor JSON_stringify JSON_parse adp require_new UriAbsent no_options h0
  = (Resolved this, h1) ->
  JSON_stringify v = Resolved s ->
  exists h2,
    set adp this k v h1 = (Resolved (VBool true), h2)
    /\ all adp this h2
       = (match JSON_parse v with
          | Rejected e => Rejected e
          | Resolved d =>
              match dot_value d with
              | Rejected e => Rejected e
              | Resolved x => Resolved (VArr [element k x])
              end
          end, h2).
Proof.
  intros built ser.
  rewrite (constructor_Map UriAbsent no_options h0) in built;
    [|repeat split].
  injection built as <- <-.
  match goal with
  | |- context [Build_Endb ?o] => set (this := Build_Endb o) in *
  end.
  destruct (get_after_set this _ _ [] _ k v s eq_refl
              (nth_error_last h0 (SMap [] (Some "endb"))) ser)
    as [h2 [set_ok [at2 _]]].
  exists h2. split; [exact set_ok|].
  rewrite (all_Map this h2 _ _ _ eq_refl at2).
  cbn [Map.set all_entries]. change (deserialize (options this)) with JSON_parse.
  destruct (JSON_parse v) as [d|e]; [|reflexivity].
  destruct (dot_value d) as [x|e]; [|reflexivity].
  now rewrite strip_prefix.
Qed.



(** C9, amended: let the host's product of a draw [0 <= random < 1] and an
    operand [0 <= n] lie between [0] and [n], as the exact product and
    its rounding to a double do.  Then [math(k, 'random', n)] (or ['rand'])
    is [set(k, round(random * n))]; on a Map it resolves to [true] and
    stores that integer, which lies between [0] and [round(n)], hence
    between [0] and [n] when [n] is an integer. *)
Theorem math_random_range (this : Endb) (h : list (storeobj A))
    (entries : Map.t) (k operation : string) (n random : Q) (s : jsval) :
  (forall x y, (0 <= x)%Q -> (x < 1)%Q -> (0 <= y)%Q ->
               (0 <= times x y)%Q /\ (times x y <= y)%Q) ->
  backed_by_Map this h entries ->
  operation = "random" \/ operation = "rand" ->
  (0 <= n)%Q -> (0 <= random)%Q -> (random < 1)%Q ->
  let z := Math_round (times random n) in
  serialize (options this) (VNum (inject_Z z)) = Resolved s ->
  math adp util_math times this k operation n random h
  = set adp this k (VNum (inject_Z z)) h
  /\ (exists h',
        math adp util_math times this k operation n random h
        = (Resolved (VBool true), h')
        /\ get adp this k h' = (Resolved (VNum (inject_Z z)), h'))
  /\ (0 <= z <= Math_round n)%Z
  /\ (forall m : Z, (n == inject_Z m)%Q -> (0 <= z <= m)%Z).
Proof.
  intros below [r [ns [store_is at_r]]] op n0 r0 r1 z ser.
  assert (is_set : math adp util_math times this k operation n random h
                   = set adp this k (VNum (inject_Z z)) h).
  { unfold math. now destruct op as [-> | ->]. }
  destruct (below random n r0 r1 n0) as [lo hi].
  assert (range : (0 <= z <= Math_round n)%Z).
  { split; [now apply Math_round_nonneg | now apply Math_round_monotone]. }
  split; [exact is_set | split; [|split; [exact range|]]].
  - destruct (get_after_set this h r entries ns k _ s store_is at_r ser)
      as [h' [set_ok [_ [get_ok _]]]].
    exists h'. split; [now rewrite is_set | exact get_ok].
  - intros m integer. split; [apply range|].
    rewrite <- (Math_round_integer m).
    apply Math_round_monotone.
    apply Qle_trans with n; [exact hi|]. rewrite integer. apply Qle_refl.
Qed.

(** ** Further properties of the methods *)

Lemma lookup_delete_other (k k' : string) (m : Map.t) :
  k <> k' -> Map.lookup k (Map.delete k' m) = Map.lookup k m.
Proof.
  intros ne. induction m as [|[k0 v0] m IH]; simpl; [reflexivity|].
  destruct (String.eqb k' k0) eqn:E; simpl.
  - apply String.eqb_eq in E. subst k0.
    apply String.eqb_neq in ne. now rewrite ne.
  - now rewrite IH.
Qed.

Lemma nth_error_update_other {X : Type} (i j : nat) (x : X) (h : list X) :
  i <> j -> nth_error (update i x h) j = nth_error h j.
Proof.
  revert i j. induction h as [|z h IH]; intros [|i] [|j] ne; simpl;
    try reflexivity.
  - now elim ne.
  - apply IH. intros E. apply ne. now rewrite E.
Qed.


(** What a call on a Map store reads under a store key. *)
Lemma reads_on_Map (this : Endb) (h : list (storeobj A)) (r : ref)
    (entries : Map.t) (ns : option string) (k : string) :
  store (options this) = Some r ->
  nth_error h r = Some (SMap entries ns) ->
  fst (get adp this k h) = Resolved (Map.get (_addKeyPrefix this k) entries)
  /\ fst (has adp this k h)
     = Resolved (VBool (Map.has (_addKeyPrefix this k) entries)).
Proof.
  intros store_is at_r.
  now rewrite (get_Map this h r entries ns store_is at_r),
              (has_Map this h r entries ns store_is at_r).
Qed.

(** The calls that only read leave a Map store, and the rest of the heap,
    as they were. *)
Theorem reads_leave_the_heap (this : Endb) (h : list (storeobj A))
    (entries : Map.t) :
  backed_by_Map this h entries ->
  snd (all adp this h) = h
  /\ (forall fn thisArg, snd (find adp this fn thisArg h) = h)
  /\ (forall k, snd (get adp this k h) = h /\ snd (has adp this k h) = h).
Proof.
  intros [r [ns [store_is at_r]]]. split; [|split].
  - now rewrite (all_Map this h r entries ns store_is at_r).
  - intros fn thisArg. unfold find, bind.
    rewrite (all_Map this h r entries ns store_is at_r).
    destruct (all_entries this entries []) as [arr|e]; simpl; [|reflexivity].
    now destruct (find_elements (fn thisArg) arr).
  - intros k.
    now rewrite (get_Map this h r entries ns store_is at_r),
                (has_Map this h r entries ns store_is at_r).
Qed.

(** On a Map, [set(k, v)] and [delete(k)] change nothing for any other
    key of the instance: [get] and [has] of it resolve as before. *)
Theorem other_keys_untouched (this : Endb) (h : list (storeobj A))
    (entries : Map.t) (k k' : string) (v : jsval) :
  backed_by_Map this h entries ->
  k <> k' ->
  (forall s, serialize (options this) v = Resolved s ->
     exists h',
       set adp this k v h = (Resolved (VBool true), h')
       /\ fst (get adp this k' h') = fst (get adp this k' h)
       /\ fst (has adp this k' h') = fst (has adp this k' h))
  /\ (exists b h',
        delete adp this k h = (Resolved (VBool b), h')
        /\ fst (get adp this k' h') = fst (get adp this k' h)
        /\ fst (has adp this k' h') = fst (has adp this k' h)).
Proof.
  intros [r [ns [store_is at_r]]] ne.
  assert (keys : _addKeyPrefix this k' <> _addKeyPrefix this k).
  { intros E. apply ne. symmetry. now apply (prefix_injective this). }
  destruct (reads_on_Map this h r entries ns k' store_is at_r) as [g0 h0].
  split.
  - intros s ser.
    destruct (get_after_set this h r entries ns k v s store_is at_r ser)
      as [h' [set_ok [at' _]]].
    exists h'. split; [exact set_ok|].
    destruct (reads_on_Map this h' r _ ns k' store_is at') as [g1 h1].
    rewrite g0, g1, h0, h1. unfold Map.get, Map.has.
    now rewrite (lookup_set_other _ _ v entries keys).
  - eexists. eexists.
    split; [apply (delete_Map this h r entries ns store_is at_r)|].
    destruct (reads_on_Map this _ r _ ns k' store_is
                (nth_error_update r (SMap (Map.delete (_addKeyPrefix this k)
                                             entries) ns) _ h at_r))
      as [g1 h1].
    rewrite g0, g1, h0, h1. unfold Map.get, Map.has.
    now rewrite (lookup_delete_other _ _ entries keys).
Qed.

(** On a Map the last [set] of a key wins and leaves one entry: after
    [set(k, v1)] and [set(k, v2)], [get(k)] resolves to [v2], one
    [delete(k)] resolves to [true], and then [has(k)] resolves to
    [false]. *)
Theorem last_set_wins (this : Endb) (h : list (storeobj A)) (entries : Map.t)
    (k : string) (v1 v2 s1 s2 : jsval) :
  backed_by_Map this h entries ->
  serialize (options this) v1 = Resolved s1 ->
  serialize (options this) v2 = Resolved s2 ->
  exists h1 h2 h3,
    set adp this k v1 h = (Resolved (VBool true), h1)
    /\ set adp this k v2 h1 = (Resolved (VBool true), h2)
    /\ get adp this k h2 = (Resolved v2, h2)
    /\ delete adp this k h2 = (Resolved (VBool true), h3)
    /\ has adp this k h3 = (Resolved (VBool false), h3).
Proof.
  intros [r [ns [store_is at_r]]] ser1 ser2.
  destruct (get_after_set this h r entries ns k v1 s1 store_is at_r ser1)
    as [h1 [set1 [at1 _]]].
  destruct (get_after_set this h1 r _ ns k v2 s2 store_is at1 ser2)
    as [h2 [set2 [at2 [get2 _]]]].
  exists h1, h2. eexists. repeat split; try eassumption.
  - rewrite (delete_Map this h2 r _ ns store_is at2).
    unfold Map.has. now rewrite lookup_set_same.
  - rewrite (has_Map this _ r _ ns store_is (nth_error_update _ _ _ _ at2)).
    unfold Map.has. now rewrite lookup_delete_same.
Qed.

(** ** Namespaces on a shared store *)

Lemma prefix_distinct (n1 n2 k1 k2 : string) :
  has_colon n1 = false -> has_colon n2 = false ->
  (n1 ++ ":" ++ k1 = n2 ++ ":" ++ k2)%string -> n1 = n2.
Proof.
  revert n2. induction n1 as [|c n1 IH]; intros [|d n2]; simpl;
    intros c1 c2 E.
  - reflexivity.
  - injection E as E _. subst d. discriminate c2.
  - injection E as E _. subst c. discriminate c1.
  - injection E as -> E.
    apply orb_false_elim in c1. apply orb_false_elim in c2.
    f_equal. now apply IH.
Qed.

(** Two instances on one Map whose namespaces differ and hold no colon
    never touch each other's keys: after [set] or [delete] through one,
    [get] and [has] through the other resolve as before. *)
Theorem colon_free_namespaces_isolate (this other : Endb)
    (h : list (storeobj A)) (r : ref) (entries : Map.t) (ns : option string)
    (k k' : string) (v : jsval) :
  store (options this) = Some r ->
  store (options other) = Some r ->
  nth_error h r = Some (SMap entries ns) ->
  has_colon (namespace (options this)) = false ->
  has_colon (namespace (options other)) = false ->
  namespace (options this) <> namespace (options other) ->
  (forall s, serialize (options this) v = Resolved s ->
     exists h',
       set adp this k v h = (Resolved (VBool true), h')
       /\ fst (get adp other k' h') = fst (get adp other k' h)
       /\ fst (has adp other k' h') = fst (has adp other k' h))
  /\ (exists b h',
        delete adp this k h = (Resolved (VBool b), h')
        /\ fst (get adp other k' h') = fst (get adp other k' h)
        /\ fst (has adp other k' h') = fst (has adp other k' h)).
Proof.
  intros store_is shared at_r c1 c2 differ.
  assert (keys : _addKeyPrefix other k' <> _addKeyPrefix this k).
  { unfold _addKeyPrefix. intros E. apply differ. symmetry.
    now apply (prefix_distinct _ _ k' k). }
  destruct (reads_on_Map other h r entries ns k' shared at_r) as [g0 h0].
  split.
  - intros s ser.
    destruct (get_after_set this h r entries ns k v s store_is at_r ser)
      as [h' [set_ok [at' _]]].
    exists h'. split; [exact set_ok|].
    destruct (reads_on_Map other h' r _ ns k' shared at') as [g1 h1].
    rewrite g0, g1, h0, h1. unfold Map.get, Map.has.
    now rewrite (lookup_set_other _ _ v entries keys).
  - eexists. eexists.
    split; [apply (delete_Map this h r entries ns store_is at_r)|].
    destruct (reads_on_Map other _ r _ ns k' shared
                (nth_error_update r (SMap (Map.delete (_addKeyPrefix this k)
                                             entries) ns) _ h at_r))
      as [g1 h1].
    rewrite g0, g1, h0, h1. unfold Map.get, Map.has.
    now rewrite (lookup_delete_other _ _ entries keys).
Qed.

(** A colon in a namespace lets two namespaces meet: the key [k1:k2]
    under the namespace [n] and the key [k2] under the namespace [n:k1]
    are one store key, so on a shared Map what one instance sets the
    other gets and can delete. *)
Theorem colon_in_namespace_collides (this other : Endb)
    (h : list (storeobj A)) (r : ref) (entries : Map.t) (ns : option string)
    (k1 k2 : string) (v s : jsval) :
  store (options this) = Some r ->
  store (options other) = Some r ->
  nth_error h r = Some (SMap entries ns) ->
  namespace (options other) = (namespace (options this) ++ ":" ++ k1)%string ->
  serialize (options this) v = Resolved s ->
  _addKeyPrefix this (k1 ++ ":" ++ k2) = _addKeyPrefix other k2
  /\ exists h' h'',
       set adp this (k1 ++ ":" ++ k2) v h = (Resolved (VBool true), h')
       /\ get adp other k2 h' = (Resolved v, h')
       /\ delete adp other k2 h' = (Resolved (VBool true), h'')
       /\ has adp this (k1 ++ ":" ++ k2) h'' = (Resolved (VBool false), h'').
Proof.
  intros store_is shared at_r nested ser.
  assert (same : _addKeyPrefix this (k1 ++ ":" ++ k2) = _addKeyPrefix other k2).
  { unfold _addKeyPrefix. rewrite nested.
    now rewrite !append_assoc. }
  split; [exact same|].
  destruct (get_after_set this h r entries ns (k1 ++ ":" ++ k2)%string v s
              store_is at_r ser) as [h' [set_ok [at' _]]].
  exists h'. eexists. split; [exact set_ok | split; [|split]].
  - rewrite (get_Map other h' r _ ns shared at'). rewrite <- same.
    unfold Map.get. now rewrite lookup_set_same.
  - rewrite (delete_Map other h' r _ ns shared at'). rewrite <- same.
    unfold Map.has. now rewrite lookup_set_same.
  - rewrite (has_Map this _ r _ ns store_is (nth_error_update _ _ _ _ at')).
    unfold Map.has. now rewrite lookup_delete_same.
Qed.

(** ** all and find *)

Lemma all_entries_listed (this : Endb) (view : jsval -> jsval)
    (entries : Map.t) (arr : list jsval) :
  (forall k v, In (k, v) entries ->
     exists d, deserialize (options this) v = Resolved d
               /\ dot_value d = Resolved (view v)) ->
  all_entries this entries arr
  = Resolved (arr ++ List.map (fun kv => element (_removeKeyPrefix this (fst kv))
                                          (view (snd kv))) entries).
Proof.
  revert arr. induction entries as [|[k v] entries IH]; intros arr ok; simpl.
  - now rewrite app_nil_r.
  - destruct (ok k v (or_introl eq_refl)) as [d [parsed read]].
    rewrite parsed, read, IH.
    + now rewrite <- app_assoc.
    + intros k' v' member. apply (ok k' v'). now right.
Qed.

Lemma all_entries_poisoned (this : Endb) (entries : Map.t) (arr : list jsval)
    (k : string) (v : jsval) (e : error) :
  In (k, v) entries ->
  deserialize (options this) v = Rejected e ->
  exists e', all_entries this entries arr = Rejected e'.
Proof.
  revert arr. induction entries as [|[k0 v0] entries IH]; intros arr member bad;
    simpl; [now elim member|].
  destruct member as [here|later].
  - injection here as -> ->. rewrite bad. now exists e.
  - destruct (deserialize (options this) v0) as [d|e0]; [|now exists e0].
    destruct (dot_value d) as [x|e0]; [|now exists e0].
    now apply IH.
Qed.

(** On a Map, when every stored value deserializes to something with a
    [value] to read, [all()] resolves to one record for every entry of the
    map, in the order of the map, whatever prefix the store key carries:
    the key with the first occurrence of the prefix taken out, and the
    [value] property of the deserialized value. *)
Theorem all_lists_every_entry (this : Endb) (h : list (storeobj A))
    (entries : Map.t) (view : jsval -> jsval) :
  backed_by_Map this h entries ->
  (forall k v, In (k, v) entries ->
     exists d, deserialize (options this) v = Resolved d
               /\ dot_value d = Resolved (view v)) ->
  all adp this h
  = (Resolved (VArr (List.map (fun kv => element (_removeKeyPrefix this (fst kv))
                                           (view (snd kv))) entries)), h).
Proof.
  intros [r [ns [store_is at_r]]] ok.
  rewrite (all_Map this h r entries ns store_is at_r).
  now rewrite (all_entries_listed this view entries [] ok).
Qed.

(** On a Map one entry that [deserialize] throws on, under any store key,
    makes [all()] and [find(fn)] reject and leaves the store as it was. *)
Theorem one_bad_entry_rejects_all (this : Endb) (h : list (storeobj A))
    (entries : Map.t) (k : string) (v : jsval) (e : error) :
  backed_by_Map this h entries ->
  In (k, v) entries ->
  deserialize (options this) v = Rejected e ->
  exists e',
    all adp this h = (Rejected e', h)
    /\ forall fn thisArg, find adp this fn thisArg h = (Rejected e', h).
Proof.
  intros [r [ns [store_is at_r]]] member bad.
  destruct (all_entries_poisoned this entries [] k v e member bad) as [e' E].
  assert (rejected : all adp this h = (Rejected e', h))
    by (now rewrite (all_Map this h r entries ns store_is at_r), E).
  exists e'. split; [exact rejected|].
  intros fn thisArg. unfold find, bind. now rewrite rejected.
Qed.

(** When the store's [all()] resolves to [undefined], [null], a boolean,
    a number or a plain object, [find] has nothing to iterate and rejects
    with a TypeError. *)
Theorem find_needs_an_iterable (this : Endb) (fn : jsval -> jsval -> jsval)
    (thisArg v : jsval) (h h' : list (storeobj A)) :
  all adp this h = (Resolved v, h') ->
  match v with
  | VUndefined | VNull | VBool _ | VNum _ | VObj _ => True
  | VStr _ | VArr _ | VBuffer _ => False
  end ->
  find adp this fn thisArg h = (Rejected TypeError, h').
Proof.
  intros resolved shape. unfold find, bind. rewrite resolved.
  destruct v; simpl; try reflexivity; now elim shape.
Qed.

(** ** has on an adapter *)

Lemma length_append (a b : string) :
  String.length (a ++ b) = String.length a + String.length b.
Proof. induction a as [|c a IH]; simpl; [reflexivity | now rewrite IH]. Qed.

Lemma prefixed_is_longer (this : Endb) (k : string) : _addKeyPrefix this k <> k.
Proof.
  unfold _addKeyPrefix. intros E. apply (f_equal String.length) in E.
  rewrite !length_append in E. simpl in E. lia.
Qed.

(** C8: on every store [get], [delete] and [set] call the store's method
    with the key [namespace:k], and [has] on a Map asks the map for that
    key too; but on a store that is no Map [has] hands the adapter
    [namespace:namespace:k], which is another key.  Stripping the prefix
    from [namespace:k] gives [k] back. *)
Theorem keys_handed_to_the_store (this : Endb) (h : list (storeobj A))
    (r : ref) (st : storeobj A) (k : string) (v : jsval) :
  store (options this) = Some r ->
  nth_error h r = Some st ->
  let key := (namespace (options this) ++ ":" ++ k)%string in
  let doubled := (namespace (options this) ++ ":" ++ key)%string in
  get adp this k h
  = (fst (store_get adp key st), update r (snd (store_get adp key st)) h)
  /\ delete adp this k h
     = (fst (store_delete adp key st),
        update r (snd (store_delete adp key st)) h)
  /\ (forall s, serialize (options this) v = Resolved s ->
        set adp this k v h
        = (match fst (store_set adp key v st) with
           | Resolved _ => Resolved (VBool true)
           | Rejected e => Rejected e
           end,
           update r (snd (store_set adp key v st)) h))
  /\ match st with
     | SMap entries _ =>
         has adp this k h = (Resolved (VBool (Map.has key entries)), h)
     | SAdapter a =>
         has adp this k h
         = (match fst (ad_get adp doubled a) with
            | Resolved data => Resolved (VBool (typeof_object data))
            | Rejected e => Rejected e
            end,
            update r (SAdapter (snd (ad_get adp doubled a))) h)
         /\ doubled <> key
     end
  /\ _removeKeyPrefix this key = k.
Proof.
  intros store_is at_r key doubled.
  split; [|split; [|split; [|split]]].
  - unfold get. now rewrite store_is, (on_store_at _ _ _ _ at_r).
  - unfold delete. now rewrite store_is, (on_store_at _ _ _ _ at_r).
  - intros s ser. unfold set, bind. rewrite ser. simpl.
    rewrite store_is, (on_store_at _ _ _ _ at_r).
    change (_addKeyPrefix this k) with key.
    now destruct (fst (store_set adp key v st)).
  - destruct st as [entries ns|a].
    + exact (has_Map this h r entries ns store_is at_r k).
    + split; [|exact (prefixed_is_longer this key)].
      unfold has, bind. rewrite store_is, (on_store_at _ _ _ _ at_r). simpl.
      rewrite (update_same _ _ _ at_r).
      unfold get. rewrite store_is, (on_store_at _ _ _ _ at_r). simpl.
      change (_addKeyPrefix this (_addKeyPrefix this k)) with doubled.
      now destruct (ad_get adp doubled a) as [[data|e] a'].
  - exact (strip_prefix this k).
Qed.

Lemma prefix_needs_colon (n s : string) :
  String.prefix (n ++ ":") s = true -> has_colon s = true.
Proof.
  revert s.
  induction n as [|c n IH]; intros [|d s];
    cbn [String.append String.prefix has_colon];
    try (intros E; discriminate E).
  - destruct (ascii_dec ":" d) as [<-|]; intros E;
      [reflexivity | discriminate E].
  - destruct (ascii_dec c d) as [_|]; intros E; [|discriminate E].
    rewrite (IH s E). apply orb_true_r.
Qed.

Lemma replace_without_colon (n rep s : string) :
  has_colon s = false -> replace (n ++ ":") rep s = s.
Proof.
  induction s as [|c s IH]; intros free; rewrite replace_unfold.
  - destruct (String.prefix (n ++ ":") EmptyString) eqn:E; [|reflexivity].
    apply prefix_needs_colon in E. discriminate E.
  - destruct (String.prefix (n ++ ":") (String c s)) eqn:E.
    + apply prefix_needs_colon in E. rewrite E in free. discriminate free.
    + simpl in free. apply orb_false_elim in free. f_equal. now apply IH.
Qed.

(** Stripping cannot tell a store key without a colon from the key an
    instance makes of it: [k] and [namespace:k] are two store keys, and
    both come back as [k]. *)
Theorem strip_merges_store_keys (this : Endb) (k : string) :
  has_colon k = false ->
  _removeKeyPrefix this k = k
  /\ _removeKeyPrefix this (_addKeyPrefix this k) = k
  /\ _addKeyPrefix this k <> k.
Proof.
  intros free. split; [|split].
  - now apply replace_without_colon.
  - apply strip_prefix.
  - apply prefixed_is_longer.
Qed.

(** On a store that is no Map, [has(k)] asks the adapter's [get] for the
    key prefixed twice, which is never the key [set(k, _)] writes, and
    resolves to whether what it got is an object ([null] included); a
    rejection of the adapter is passed on. *)
Theorem has_reads_the_doubled_key (this : Endb) (h : list (storeobj A))
    (r : ref) (a : A) (k : string) :
  store (options this) = Some r ->
  nth_error h r = Some (SAdapter a) ->
  let asked := _addKeyPrefix this (_addKeyPrefix this k) in
  has adp this k h
  = (match fst (ad_get adp asked a) with
     | Resolved data => Resolved (VBool (typeof_object data))
     | Rejected e => Rejected e
     end,
     update r (SAdapter (snd (ad_get adp asked a))) h)
  /\ asked <> _addKeyPrefix this k.
Proof.
  intros store_is at_r asked. split.
  - unfold has, bind. rewrite store_is, (on_store_at _ _ _ _ at_r). simpl.
    rewrite (update_same _ _ _ at_r).
    unfold get. rewrite store_is, (on_store_at _ _ _ _ at_r). simpl.
    fold asked. now destruct (ad_get adp asked a) as [[data|e] a'].
  - apply prefixed_is_longer.
Qed.

(** ** math with an operation of util.math *)

(** On a Map, for an operation other than ['random'] and ['rand'],
    [math(k, operation, n)] hands [util.math] what is stored under [k]
    ([undefined] when nothing is): a throw of [util.math] rejects the call
    and leaves the store as it was, and a result is stored under [k]. *)
Theorem math_stores_the_result (this : Endb) (h : list (storeobj A))
    (entries : Map.t) (k operation : string) (n random : Q) :
  backed_by_Map this h entries ->
  operation <> "random" -> operation <> "rand" ->
  let current := Map.get (_addKeyPrefix this k) entries in
  (forall e, util_math current operation n = Rejected e ->
     math adp util_math times this k operation n random h = (Rejected e, h))
  /\ (forall x s,
        util_math current operation n = Resolved x ->
        serialize (options this) x = Resolved s ->
        exists h',
          math adp util_math times this k operation n random h
          = (Resolved (VBool true), h')
          /\ get adp this k h' = (Resolved x, h')).
Proof.
  intros [r [ns [store_is at_r]]] not_random not_rand current.
  apply String.eqb_neq in not_random. apply String.eqb_neq in not_rand.
  assert (unfolded : math adp util_math times this k operation n random h
                     = match util_math current operation n with
                       | Resolved x => set adp this k x h
                       | Rejected e => (Rejected e, h)
                       end).
  { unfold math, bind. rewrite not_random, not_rand. simpl.
    rewrite (get_Map this h r entries ns store_is at_r). fold current.
    now destruct (util_math current operation n). }
  split.
  - intros e thrown. now rewrite unfolded, thrown.
  - intros x s result ser. rewrite unfolded, result.
    destruct (get_after_set this h r entries ns k x s store_is at_r ser)
      as [h' [set_ok [_ [get_ok _]]]].
    exists h'. now split.
Qed.

(** ** More on construction *)

Lemma load_by_adapter (o : Options) (name : string) (h : list (storeobj A)) :
  adapter o = Some name -> name <> EmptyString ->
  load require_new o h
  = match adapters_get name with
    | OwnPath path =>
        match require_new path o with
        | Resolved a => (Resolved (List.length h), h ++ [SAdapter a])
        | Rejected e => (Rejected e, h)
        end
    | Inherited => (Rejected TypeError, h)
    | Undefined => (Resolved (List.length h), h ++ [SMap [] None])
    end.
Proof.
  intros given nonempty. apply String.eqb_neq in nonempty.
  unfold load. rewrite given. cbn [truthy_string]. rewrite nonempty.
  cbn [negb orb]. destruct (adapters_get name) as [path| |]; try reflexivity.
  unfold bind, lift. now destruct (require_new path o).
Qed.

Lemma load_by_uri (o : Options) (u : string) (h : list (storeobj A)) :
  truthy_string (adapter o) = false -> uri o = Some u -> u <> EmptyString ->
  load require_new o h
  = match adapters_get (scheme_of u) with
    | OwnPath path =>
        match require_new path o with
        | Resolved a => (Resolved (List.length h), h ++ [SAdapter a])
        | Rejected e => (Rejected e, h)
        end
    | Inherited => (Rejected TypeError, h)
    | Undefined => (Resolved (List.length h), h ++ [SMap [] None])
    end.
Proof.
  intros no_adapter given nonempty. apply String.eqb_neq in nonempty.
  unfold load. rewrite no_adapter, given. cbn [truthy_string].
  rewrite nonempty. cbn [negb orb].
  destruct (adapters_get (scheme_of u)) as [path| |]; try reflexivity.
  unfold bind, lift. now destruct (require_new path o).
Qed.

Lemma constructor_rejected (first : UriArg) (opts : OptionsArg)
    (h h' : list (storeobj A)) (e : error) :
  let merged := defaults JSON_stringify JSON_parse
                  (assign (uri_object first) opts) in
  store merged = None ->
  load require_new merged h = (Rejected e, h') ->
  constructor JSON_stringify JSON_parse adp require_new first opts h
  = (Rejected e, h').
Proof.
  intros merged no_store thrown. unfold constructor, bind. fold merged.
  now rewrite no_store, thrown.
Qed.

Lemma constructor_loaded (first : UriArg) (opts : OptionsArg)
    (h : list (storeobj A)) (st : storeobj A) :
  let merged := defaults JSON_stringify JSON_parse
                  (assign (uri_object first) opts) in
  store merged = None ->
  load require_new merged h = (Resolved (List.length h), h ++ [st]) ->
  constructor JSON_stringify JSON_parse adp require_new first opts h
  = (Resolved (Build_Endb (with_store merged (List.length h))),
     h ++ [match st with
           | SMap entries _ => SMap entries (Some (namespace merged))
           | SAdapter a =>
               SAdapter (ad_set_namespace adp (namespace merged)
                           (ad_on_error adp a))
           end]).
Proof.
  intros merged no_store made. unfold constructor, bind. fold merged.
  rewrite no_store, made. cbv beta iota zeta.
  change (store (with_store merged (List.length h)))
    with (Some (List.length h)).
  rewrite (on_store_at _ _ _ _ (nth_error_last h st)).
  destruct st; simpl; now rewrite update_last.
Qed.

Lemma inherited_is_no_module (name : string) :
  mem_string name Object_prototype = true -> adapters_get name = Inherited.
Proof.
  intros inherited. unfold adapters_get. rewrite inherited.
  unfold mem_string, Object_prototype in inherited. simpl in inherited.
  repeat (apply orb_prop in inherited;
          destruct inherited as [inherited|inherited];
          [apply String.eqb_eq in inherited; subst name; reflexivity|]).
  discriminate inherited.
Qed.

Lemma scheme_of_append (scheme rest : string) :
  has_colon scheme = false -> scheme_of (scheme ++ ":" ++ rest) = scheme.
Proof.
  induction scheme as [|c scheme IH]; simpl; [reflexivity|].
  intros free. apply orb_false_elim in free. destruct free as [here later].
  rewrite here. f_equal. now apply IH.
Qed.

(** An [adapter] option that names a member of the table alone decides
    the store, whatever the uri: the module is constructed with the merged
    options, the adapter gets the error listener and the namespace, and a
    throw of the module is the constructor's throw, with nothing made. *)
Theorem adapter_option_loads_module (first : UriArg) (opts : OptionsArg)
    (h : list (storeobj A)) (name path : string) :
  let merged := defaults JSON_stringify JSON_parse
                  (assign (uri_object first) opts) in
  arg_store (assign (uri_object first) opts) = None ->
  arg_adapter (assign (uri_object first) opts) = Some name ->
  assoc name adapters = Some path ->
  constructor JSON_stringify JSON_parse adp require_new first opts h
  = match require_new path merged with
    | Resolved a =>
        (Resolved (Build_Endb (with_store merged (List.length h))),
         h ++ [SAdapter (ad_set_namespace adp (namespace merged)
                           (ad_on_error adp a))])
    | Rejected e => (Rejected e, h)
    end.
Proof.
  intros merged no_store given known.
  assert (nonempty : name <> EmptyString)
    by (intros ->; discriminate known).
  pose proof (load_by_adapter merged name h given nonempty) as made.
  unfold adapters_get in made. rewrite known in made.
  destruct (require_new path merged) as [a|e].
  - exact (constructor_loaded first opts h (SAdapter a) no_store made).
  - exact (constructor_rejected first opts h h e no_store made).
Qed.

(** An [adapter] option that is not empty and names nothing in the table
    gives the in-memory Map even when the uri has a scheme of the table:
    the uri is not looked at. *)
Theorem unknown_adapter_option_ignores_uri (first : UriArg) (opts : OptionsArg)
    (h : list (storeobj A)) (name : string) :
  let merged := defaults JSON_stringify JSON_parse
                  (assign (uri_object first) opts) in
  arg_store (assign (uri_object first) opts) = None ->
  arg_adapter (assign (uri_object first) opts) = Some name ->
  name <> EmptyString ->
  assoc name adapters = None ->
  mem_string name Object_prototype = false ->
  constructor JSON_stringify JSON_parse adp require_new first opts h
  = (Resolved (Build_Endb (with_store merged (List.length h))),
     h ++ [SMap [] (Some (namespace merged))]).
Proof.
  intros merged no_store given nonempty not_own not_inherited.
  pose proof (load_by_adapter merged name h given nonempty) as made.
  unfold adapters_get in made. rewrite not_own, not_inherited in made.
  exact (constructor_loaded first opts h (SMap [] None) no_store made).
Qed.

(** Without an [adapter] option, a uri [scheme:rest] whose scheme is in
    the table constructs that module, whatever follows the first colon. *)
Theorem uri_scheme_loads_module (first : UriArg) (opts : OptionsArg)
    (h : list (storeobj A)) (scheme rest path : string) :
  let merged := defaults JSON_stringify JSON_parse
                  (assign (uri_object first) opts) in
  arg_store (assign (uri_object first) opts) = None ->
  truthy_string (arg_adapter (assign (uri_object first) opts)) = false ->
  arg_uri (assign (uri_object first) opts) = Some (scheme ++ ":" ++ rest)%string ->
  has_colon scheme = false ->
  assoc scheme adapters = Some path ->
  constructor JSON_stringify JSON_parse adp require_new first opts h
  = match require_new path merged with
    | Resolved a =>
        (Resolved (Build_Endb (with_store merged (List.length h))),
         h ++ [SAdapter (ad_set_namespace adp (namespace merged)
                           (ad_on_error adp a))])
    | Rejected e => (Rejected e, h)
    end.
Proof.
  intros merged no_store no_adapter given free known.
  assert (nonempty : (scheme ++ ":" ++ rest)%string <> EmptyString)
    by (destruct scheme; discriminate).
  pose proof (load_by_uri merged _ h no_adapter given nonempty) as made.
  rewrite (scheme_of_append scheme rest free) in made.
  unfold adapters_get in made. rewrite known in made.
  destruct (require_new path merged) as [a|e].
  - exact (constructor_loaded first opts h (SAdapter a) no_store made).
  - exact (constructor_rejected first opts h h e no_store made).
Qed.

(** When no store is given and the name [load] settles on, the [adapter]
    option or else the scheme of the uri, is a member every object
    inherits, the constructor throws a TypeError and makes nothing. *)
Theorem inherited_member_throws (first : UriArg) (opts : OptionsArg)
    (h : list (storeobj A)) (name : string) :
  arg_store (assign (uri_object first) opts) = None ->
  arg_adapter (assign (uri_object first) opts) = Some name
  \/ (truthy_string (arg_adapter (assign (uri_object first) opts)) = false
      /\ exists u, arg_uri (assign (uri_object first) opts) = Some u
                   /\ scheme_of u = name) ->
  mem_string name Object_prototype = true ->
  constructor JSON_stringify JSON_parse adp require_new first opts h
  = (Rejected TypeError, h).
Proof.
  intros no_store chosen inherited.
  assert (nonempty : name <> EmptyString)
    by (intros ->; discriminate inherited).
  pose proof (inherited_is_no_module name inherited) as member.
  apply (constructor_rejected first opts h h TypeError no_store).
  pose (merged := defaults JSON_stringify JSON_parse
                    (assign (uri_object first) opts)).
  fold merged.
  destruct chosen as [given | [no_adapter [u [given named]]]].
  - rewrite (load_by_adapter merged name h given nonempty).
    now rewrite member.
  - assert (u_nonempty : u <> EmptyString)
      by (intros ->; apply nonempty; now rewrite <- named).
    rewrite (load_by_uri merged u h no_adapter given u_nonempty).
    now rewrite named, member.
Qed.

(** A Map given as [store] is adopted as it is, whatever [adapter] and
    [uri] say: nothing is loaded or made, the map keeps its entries and
    gets the namespace of the new instance, through which the entries
    under that namespace can be read at once. *)
Theorem given_Map_is_adopted (first : UriArg) (opts : OptionsArg)
    (h : list (storeobj A)) (r : ref) (entries : Map.t)
    (ns : option string) :
  let merged := defaults JSON_stringify JSON_parse
                  (assign (uri_object first) opts) in
  arg_store (assign (uri_object first) opts) = Some r ->
  nth_error h r = Some (SMap entries ns) ->
  exists this h',
    constructor JSON_stringify JSON_parse adp require_new first opts h
    = (Resolved this, h')
    /\ h' = update r (SMap entries (Some (namespace merged))) h
    /\ namespace (options this) = namespace merged
    /\ forall k,
         get adp this k h'
         = (Resolved (Map.get (namespace merged ++ ":" ++ k) entries), h').
Proof.
  intros merged given at_r.
  exists (Build_Endb (with_store merged r)). eexists.
  split; [|split; [reflexivity | split; [reflexivity|]]].
  - unfold constructor, bind. fold merged.
    replace (store merged) with (Some r) by (symmetry; exact given).
    cbv beta iota zeta. unfold ret at 1.
    change (store (with_store merged r)) with (Some r).
    now rewrite (on_store_at _ _ _ _ at_r).
  - intros k.
    exact (get_Map (Build_Endb (with_store merged r)) _ r entries
             (Some (namespace merged)) eq_refl
             (nth_error_update _ _ _ _ at_r) k).
Qed.

(** ** multi *)

Lemma own_member_put_same (name : string) (e : Endb)
    (members : list (string * Endb)) :
  own_member name (put_member name e members) = Some e.
Proof.
  induction members as [|[n e'] members IH]; simpl.
  - now rewrite String.eqb_refl.
  - destruct (String.eqb name n) eqn:E; simpl; rewrite E;
      [reflexivity | exact IH].
Qed.

Lemma own_member_put_other (name n : string) (e : Endb)
    (members : list (string * Endb)) :
  name <> n -> own_member name (put_member n e members) = own_member name members.
Proof.
  intros ne. induction members as [|[n0 e0] members IH]; simpl.
  - apply String.eqb_neq in ne. now rewrite ne.
  - destruct (String.eqb n n0) eqn:E; simpl.
    + apply String.eqb_eq in E. subst n0.
      apply String.eqb_neq in ne. now rewrite ne.
    + now rewrite IH.
Qed.

Lemma nth_error_repeat_after {X : Type} (h : list X) (x : X) (n i : nat) :
  i < n -> nth_error (h ++ repeat x n) (List.length h + i) = Some x.
Proof.
  intros below. rewrite nth_error_app2 by lia.
  replace (List.length h + i - List.length h) with i by lia.
  now apply nth_error_repeat.
Qed.

Lemma repeat_snoc {X : Type} (h : list X) (x : X) (n : nat) :
  (h ++ repeat x n) ++ [x] = h ++ repeat x (S n).
Proof. rewrite <- app_assoc. f_equal. symmetry. apply repeat_cons. Qed.

Section Multi.

Variable opts : OptionsArg.

Local Abbreviation merged :=
  (defaults JSON_stringify JSON_parse
     (assign (uri_object (UriOptions opts)) no_options)).

Lemma multi_names_fresh (h0 : list (storeobj A)) (names pre : list string)
    (instances : Instances) :
  falls_back (assign (uri_object (UriOptions opts)) no_options) ->
  (forall name e, own_member name (own instances) = Some e ->
     exists i, nth_error pre i = Some name
               /\ e = Build_Endb (with_store merged (List.length h0 + i))) ->
  (forall name, In name pre -> name <> "__proto__" ->
     exists e, own_member name (own instances) = Some e) ->
  exists instances',
    multi_names JSON_stringify JSON_parse adp require_new names opts instances
      (h0 ++ repeat (SMap [] (Some (namespace merged))) (List.length pre))
    = (Resolved instances',
       h0 ++ repeat (SMap [] (Some (namespace merged)))
               (List.length (pre ++ names)))
    /\ (forall name e, own_member name (own instances') = Some e ->
          exists i, nth_error (pre ++ names) i = Some name
                    /\ e = Build_Endb (with_store merged (List.length h0 + i)))
    /\ (forall name, In name (pre ++ names) -> name <> "__proto__" ->
          exists e, own_member name (own instances') = Some e).
Proof.
  intros fb. revert pre instances.
  induction names as [|name names IH]; intros pre instances from_pre all_pre.
  - exists instances. rewrite app_nil_r. now repeat split.
  - simpl. unfold bind.
    rewrite (constructor_Map (UriOptions opts) no_options _ fb).
    rewrite repeat_snoc.
    rewrite length_app, repeat_length.
    set (e := Build_Endb (with_store merged (List.length h0 + List.length pre))).
    destruct (IH (pre ++ [name]) (assign_member name e instances))
      as [instances' [run [from_all all_in]]].
    + intros n e'. unfold assign_member.
      destruct (String.eqb name "__proto__") eqn:P; simpl.
      * intros member. destruct (from_pre n e' member) as [i [at_i is_e]].
        exists i. split; [|exact is_e].
        rewrite nth_error_app1; [exact at_i|].
        apply nth_error_Some. now rewrite at_i.
      * destruct (String.eqb n name) eqn:N.
        -- apply String.eqb_eq in N. subst n.
           rewrite own_member_put_same. intros [= <-].
           exists (List.length pre). split; [|reflexivity].
           apply nth_error_last.
        -- apply String.eqb_neq in N. rewrite own_member_put_other by exact N.
           intros member. destruct (from_pre n e' member) as [i [at_i is_e]].
           exists i. split; [|exact is_e].
           rewrite nth_error_app1; [exact at_i|].
           apply nth_error_Some. now rewrite at_i.
    + intros n member not_proto. unfold assign_member.
      destruct (String.eqb name "__proto__") eqn:P; simpl.
      * apply in_app_or in member. destruct member as [before|[here|[]]].
        -- now apply all_pre.
        -- subst n. apply String.eqb_eq in P. now elim not_proto.
      * destruct (String.eqb n name) eqn:N.
        -- apply String.eqb_eq in N. subst n.
           exists e. apply own_member_put_same.
        -- apply String.eqb_neq in N. rewrite own_member_put_other by exact N.
           apply in_app_or in member. destruct member as [before|[here|[]]].
           ++ now apply all_pre.
           ++ now elim N.
    + exists instances'.
      replace (S (List.length pre)) with (List.length (pre ++ [name]))
        by (rewrite length_app; simpl; lia).
      replace (pre ++ name :: names) with ((pre ++ [name]) ++ names)
        by (now rewrite <- app_assoc).
      now repeat split.
Qed.

(** With options that lead to the in-memory fallback, [multi(names,
    options)] makes one new empty Map for each name, in order.  Every name
    but [__proto__] becomes a property; the instance under a name has the
    namespace of the options, not the name, and its store is the Map made
    for an occurrence of the name. *)
Theorem multi_makes_a_store_per_name (names : list string)
    (h : list (storeobj A)) :
  falls_back (assign (uri_object (UriOptions opts)) no_options) ->
  exists instances,
    multi JSON_stringify JSON_parse adp require_new names opts h
    = (Resolved instances,
       h ++ repeat (SMap [] (Some (namespace merged))) (List.length names))
    /\ (forall name, In name names -> name <> "__proto__" ->
          exists e, own_member name (own instances) = Some e)
    /\ (forall name e, own_member name (own instances) = Some e ->
          namespace (options e) = namespace merged
          /\ exists i, nth_error names i = Some name
                       /\ store (options e) = Some (List.length h + i)).
Proof.
  intros fb.
  destruct (multi_names_fresh h names [] {| own := []; proto := None |} fb)
    as [instances [run [from_all all_in]]].
  - intros name e member. discriminate member.
  - intros name member. now elim member.
  - simpl in run. rewrite app_nil_r in run.
    exists instances. split; [exact run | split; [exact all_in|]].
    intros name e member. destruct (from_all name e member) as [i [at_i ->]].
    split; [reflexivity|]. now exists i.
Qed.

(** The instances [multi] makes on the in-memory fallback are apart though
    they share a namespace: what is set through the instance under one
    name is there for that instance and not for the instance under
    another name. *)
Theorem multi_instances_are_apart (names : list string)
    (h h1 : list (storeobj A)) (instances : Instances) (n1 n2 : string)
    (e1 e2 : Endb) (k : string) (v s : jsval) :
  falls_back (assign (uri_object (UriOptions opts)) no_options) ->
  multi JSON_stringify JSON_parse adp require_new names opts h
  = (Resolved instances, h1) ->
  own_member n1 (own instances) = Some e1 ->
  own_member n2 (own instances) = Some e2 ->
  n1 <> n2 ->
  serialize (options e1) v = Resolved s ->
  exists h2,
    set adp e1 k v h1 = (Resolved (VBool true), h2)
    /\ get adp e1 k h2 = (Resolved v, h2)
    /\ get adp e2 k h2 = (Resolved VUndefined, h2).
Proof.
  intros fb run m1 m2 differ ser.
  destruct (multi_names_fresh h names [] {| own := []; proto := None |} fb)
    as [instances' [run' [from_all _]]].
  - intros name e member. discriminate member.
  - intros name member. now elim member.
  - simpl in run'. rewrite app_nil_r in run'. unfold multi in run.
    rewrite run' in run. injection run as <- <-.
    simpl in from_all.
    destruct (from_all n1 e1 m1) as [i1 [at1 is1]].
    destruct (from_all n2 e2 m2) as [i2 [at2 is2]].
    assert (below1 : i1 < List.length names)
      by (apply nth_error_Some; now rewrite at1).
    assert (below2 : i2 < List.length names)
      by (apply nth_error_Some; now rewrite at2).
    assert (apart : List.length h + i1 <> List.length h + i2).
    { intros E. assert (i1 = i2) by lia. subst i2.
      rewrite at1 in at2. injection at2 as E'. now apply differ. }
    assert (store1 : store (options e1) = Some (List.length h + i1))
      by (now rewrite is1).
    assert (store2 : store (options e2) = Some (List.length h + i2))
      by (now rewrite is2).
    pose proof (nth_error_repeat_after h
                  (SMap [] (Some (namespace merged))) _ i1 below1) as at_1.
    destruct (get_after_set e1 _ _ [] _ k v s store1 at_1 ser)
      as [h2 [set_ok [at_2 [get_ok _]]]].
    exists h2. split; [exact set_ok | split; [exact get_ok|]].
    assert (still : nth_error h2 (List.length h + i2)
                    = Some (SMap [] (Some (namespace merged)))).
    { rewrite (set_Map e1 _ _ [] _ store1 at_1 k v s ser) in set_ok.
      injection set_ok as <-.
      rewrite nth_error_update_other by exact apart.
      now apply nth_error_repeat_after. }
    now rewrite (get_Map e2 h2 _ [] _ store2 still).
Qed.



End Multi.

End Properties.

(** * Worked instances *)

(** The theorems above at concrete inputs, on the host of [Sample]. *)

Lemma set_then_get_witness :
  constructor Sample.stringify Sample.parse Sample.no_adapter Sample.no_module
    UriAbsent no_options []
  = (Resolved Sample.endb, Sample.fresh)
  /\ Sample.stringify (VStr "bar") = Resolved (VStr (Sample.quoted "bar"))
  /\ exists h',
       set Sample.no_adapter Sample.endb "foo" (VStr "bar")
         (run_calls Sample.no_adapter Sample.no_math Qmult Sample.endb
            [CallSet "foo" VNull; CallDelete "baz"] Sample.fresh)
       = (Resolved (VBool true), h')
       /\ get Sample.no_adapter Sample.endb "foo" h' = (Resolved (VStr "bar"), h').
Proof.
  split; [reflexivity | split; [reflexivity|]].
  apply (set_then_get Sample.stringify Sample.parse unit Sample.no_adapter
           Sample.no_module Sample.no_math Qmult [] Sample.fresh Sample.endb
           [CallSet "foo" VNull; CallDelete "baz"] "foo" (VStr "bar")
           (VStr (Sample.quoted "bar")));
    reflexivity.
Defined.

Lemma all_after_set_witness :
  constructor Sample.stringify Sample.parse Sample.no_adapter Sample.no_module
    UriAbsent no_options []
  = (Resolved Sample.endb, Sample.fresh)
  /\ Sample.stringify (VStr "bar") = Resolved (VStr (Sample.quoted "bar"))
  /\ exists h2,
       set Sample.no_adapter Sample.endb "foo" (VStr "bar") Sample.fresh
       = (Resolved (VBool true), h2)
       /\ all Sample.no_adapter Sample.endb h2 = (Rejected SyntaxError, h2).
Proof.
  split; [reflexivity | split; [reflexivity|]].
  exact (all_after_set Sample.stringify Sample.parse unit Sample.no_adapter
           Sample.no_module [] Sample.fresh Sample.endb "foo" (VStr "bar")
           (VStr (Sample.quoted "bar")) eq_refl eq_refl).
Defined.



Lemma set_passes_raw_value_witness :
  let this := Sample.instance "endb" Sample.parse 0 in
  store (options this) = Some 0
  /\ nth_error [SAdapter (@nil (string * jsval))] 0 = Some (SAdapter [])
  /\ serialize (options this) (VStr "bar") = Resolved (VStr (Sample.quoted "bar"))
  /\ set Sample.recorder this "foo" (VStr "bar") [SAdapter []]
     = (Resolved (VBool true), [SAdapter [("endb:foo", VStr "bar")]]).
Proof.
  intros this. split; [reflexivity | split; [reflexivity | split; [reflexivity|]]].
  exact (proj2 (set_passes_raw_value _ Sample.recorder this [SAdapter []] 0
                  (SAdapter []) "foo" (VStr "bar") eq_refl eq_refl)
           (VStr (Sample.quoted "bar")) eq_refl).
Defined.

(** A [store] option is used as it is: nothing new is made. *)
Lemma given_store_is_not_fresh :
  arg_adapter (assign (uri_object UriAbsent) Sample.the_store) = None
  /\ arg_uri (assign (uri_object UriAbsent) Sample.the_store) = None
  /\ ~ exists this,
         constructor Sample.stringify Sample.parse Sample.no_adapter
           Sample.no_module UriAbsent Sample.the_store Sample.used
         = (Resolved this,
            Sample.used ++ [SMap [] (Some (namespace (options this)))])
         /\ store (options this) = Some (List.length Sample.used).
Proof.
  split; [reflexivity | split; [reflexivity|]].
  intros [this [built _]].
  apply (f_equal (fun p => List.length (snd p))) in built.
  vm_compute in built. discriminate built.
Qed.

(** A scheme that names a member every object inherits makes [load]
    throw. *)
Example inherited_name_throws :
  assoc (scheme_of "constructor://db") adapters = None
  /\ constructor Sample.stringify Sample.parse Sample.no_adapter Sample.no_module
       (UriString "constructor://db") no_options []
     = (Rejected TypeError, []).
Proof. split; reflexivity. Qed.

Lemma unknown_scheme_falls_back_witness :
  let o := assign (uri_object (UriString "memory://db")) no_options in
  arg_adapter o = None
  /\ arg_store o = None
  /\ (forall u, arg_uri o = Some u ->
                assoc (scheme_of u) adapters = None
                /\ mem_string (scheme_of u) Object_prototype = false)
  /\ exists this,
       constructor Sample.stringify Sample.parse Sample.no_adapter
         Sample.no_module (UriString "memory://db") no_options []
       = (Resolved this, [] ++ [SMap [] (Some (namespace (options this)))])
       /\ store (options this) = Some 0.
Proof.
  intros o.
  assert (unknown : forall u, arg_uri o = Some u ->
                      assoc (scheme_of u) adapters = None
                      /\ mem_string (scheme_of u) Object_prototype = false).
  { intros u E. injection E as <-. split; reflexivity. }
  split; [reflexivity | split; [reflexivity | split; [exact unknown|]]].
  exact (unknown_scheme_falls_back Sample.stringify Sample.parse unit
           Sample.no_adapter Sample.no_module (UriString "memory://db")
           no_options [] eq_refl eq_refl unknown).
Defined.

Lemma delete_true_once_witness :
  backed_by_Map Sample.endb Sample.holding [("endb:foo", VStr "bar")]
  /\ exists h1,
       delete Sample.no_adapter Sample.endb "foo" Sample.holding
       = (Resolved (VBool true), h1)
       /\ (forall calls,
             forallb (fun c => negb (sets_key "foo" c)) calls = true ->
             let h2 := run_calls Sample.no_adapter Sample.no_math Qmult Sample.endb
                         calls h1 in
             get Sample.no_adapter Sample.endb "foo" h2 = (Resolved VUndefined, h2)
             /\ exists h3,
                  delete Sample.no_adapter Sample.endb "foo" h2
                  = (Resolved (VBool false), h3))
       /\ (forall v s,
             Sample.stringify v = Resolved s ->
             exists h' h'',
               set Sample.no_adapter Sample.endb "foo" v Sample.holding
               = (Resolved (VBool true), h')
               /\ delete Sample.no_adapter Sample.endb "foo" h'
                  = (Resolved (VBool true), h'')).
Proof.
  assert (on_Map : backed_by_Map Sample.endb Sample.holding
                     [("endb:foo", VStr "bar")]).
  { exists 0%nat, (Some "endb"). split; reflexivity. }
  split; [exact on_Map|].
  exact (delete_true_once unit Sample.no_adapter Sample.no_math Qmult Sample.endb
           Sample.holding [("endb:foo", VStr "bar")] "foo" on_Map).
Defined.

Lemma has_before_and_after_set_witness :
  falls_back (assign (uri_object UriAbsent) no_options)
  /\ constructor Sample.stringify Sample.parse Sample.no_adapter Sample.no_module
       UriAbsent no_options []
     = (Resolved Sample.endb, Sample.fresh)
  /\ let h := run_calls Sample.no_adapter Sample.no_math Qmult Sample.endb
                [CallSet "baz" VNull; CallDelete "foo"; CallHas "foo"]
                Sample.fresh in
     (forallb (fun c => negb (sets_key "foo" c))
        [CallSet "baz" VNull; CallDelete "foo"; CallHas "foo"] = true ->
      has Sample.no_adapter Sample.endb "foo" h = (Resolved (VBool false), h))
     /\ (forall v s,
           Sample.stringify v = Resolved s ->
           exists h',
             set Sample.no_adapter Sample.endb "foo" v h
             = (Resolved (VBool true), h')
             /\ has Sample.no_adapter Sample.endb "foo" h'
                = (Resolved (VBool true), h')).
Proof.
  assert (fb : falls_back (assign (uri_object UriAbsent) no_options))
    by (repeat split).
  split; [exact fb | split; [reflexivity|]].
  exact (has_before_and_after_set Sample.stringify Sample.parse unit
           Sample.no_adapter Sample.no_module Sample.no_math Qmult UriAbsent
           no_options [] Sample.fresh Sample.endb
           [CallSet "baz" VNull; CallDelete "foo"; CallHas "foo"] "foo"
           fb eq_refl).
Defined.

(** A draw of 3/4 on the operand 3/4 stores 1, which is above the
    operand. *)
Lemma random_exceeds_fractional_operand :
  (0 <= 3 # 4)%Q /\ (3 # 4 < 1)%Q
  /\ exists h',
       math Sample.no_adapter Sample.no_math Qmult Sample.endb "num" "random"
         (3 # 4) (3 # 4) Sample.fresh
       = (Resolved (VBool true), h')
       /\ get Sample.no_adapter Sample.endb "num" h'
          = (Resolved (VNum (inject_Z 1)), h')
       /\ ~ (inject_Z 1 <= 3 # 4)%Q.
Proof.
  split; [discriminate | split; [reflexivity|]].
  exists [SMap [("endb:num", VNum (inject_Z 1))] (Some "endb")].
  split; [reflexivity | split; [reflexivity|]].
  intros le. now apply le.
Qed.

Lemma math_random_range_witness :
  (forall x y, (0 <= x)%Q -> (x < 1)%Q -> (0 <= y)%Q ->
               (0 <= x * y)%Q /\ (x * y <= y)%Q)
  /\ backed_by_Map Sample.endb Sample.fresh []
  /\ ("random" = "random" \/ "random" = "rand")
  /\ (0 <= inject_Z 10)%Q /\ (0 <= 1 # 2)%Q /\ (1 # 2 < 1)%Q
  /\ Sample.stringify (VNum (inject_Z 5)) = Resolved (VStr "5")
  /\ (exists h',
        math Sample.no_adapter Sample.no_math Qmult Sample.endb "num" "random"
          (inject_Z 10) (1 # 2) Sample.fresh
        = (Resolved (VBool true), h')
        /\ get Sample.no_adapter Sample.endb "num" h'
           = (Resolved (VNum (inject_Z 5)), h'))
  /\ (0 <= 5 <= 10)%Z.
Proof.
  assert (on_Map : backed_by_Map Sample.endb Sample.fresh []).
  { exists 0%nat, (Some "endb"). split; reflexivity. }
  assert (n0 : (0 <= inject_Z 10)%Q) by discriminate.
  assert (r0 : (0 <= 1 # 2)%Q) by discriminate.
  assert (r1 : (1 # 2 < 1)%Q) by reflexivity.
  assert (ser : Sample.stringify (VNum (inject_Z 5)) = Resolved (VStr "5"))
    by reflexivity.
  split; [exact product_below|].
  repeat (split; [assumption || (left; reflexivity)|]).
  destruct (math_random_range unit Sample.no_adapter Sample.no_math Qmult
              Sample.endb Sample.fresh [] "num" "random" (inject_Z 10) (1 # 2)
              (VStr "5") product_below on_Map (or_introl eq_refl) n0 r0 r1 ser)
    as [_ [stored [_ integer]]].
  split; [exact stored | exact (integer 10%Z (Qeq_refl _))].
Defined.

Lemma clear_ignores_namespace_witness :
  store (options Sample.users) = Some 0%nat
  /\ store (options Sample.members) = Some 0%nat
  /\ nth_error Sample.shared 0
     = Some (SMap [("users:a", VNum (inject_Z 1));
                   ("members:b", VNum (inject_Z 2))] (Some "members"))
  /\ has Sample.no_adapter Sample.members "b" Sample.shared
     = (Resolved (VBool true), Sample.shared)
  /\ exists h',
       clear Sample.no_adapter Sample.users Sample.shared
       = (Resolved VUndefined, h')
       /\ nth_error h' 0 = Some (SMap [] (Some "members"))
       /\ all Sample.no_adapter Sample.members h' = (Resolved (VArr []), h')
       /\ forall k,
            get Sample.no_adapter Sample.members k h' = (Resolved VUndefined, h')
            /\ has Sample.no_adapter Sample.members k h'
               = (Resolved (VBool false), h').
Proof.
  repeat (split; [reflexivity|]).
  exact (clear_ignores_namespace unit Sample.no_adapter Sample.users
           Sample.members Sample.shared 0%nat _ (Some "members")
           eq_refl eq_refl eq_refl).
Defined.

(** ** Further instances *)

Lemma holding_on_Map :
  backed_by_Map Sample.endb Sample.holding [("endb:foo", VStr "bar")].
Proof. exists 0%nat, (Some "endb"). split; reflexivity. Defined.

Lemma reads_leave_the_heap_witness :
  backed_by_Map Sample.endb Sample.holding [("endb:foo", VStr "bar")]
  /\ snd (all Sample.no_adapter Sample.endb Sample.holding) = Sample.holding
  /\ (forall fn thisArg,
        snd (find Sample.no_adapter Sample.endb fn thisArg Sample.holding)
        = Sample.holding)
  /\ (forall k,
        snd (get Sample.no_adapter Sample.endb k Sample.holding) = Sample.holding
        /\ snd (has Sample.no_adapter Sample.endb k Sample.holding)
           = Sample.holding).
Proof.
  split; [exact holding_on_Map|].
  exact (reads_leave_the_heap unit Sample.no_adapter Sample.endb Sample.holding
           [("endb:foo", VStr "bar")] holding_on_Map).
Defined.

Lemma other_keys_untouched_witness :
  backed_by_Map Sample.endb Sample.holding [("endb:foo", VStr "bar")]
  /\ "baz" <> "foo"
  /\ (forall s, Sample.stringify VNull = Resolved s ->
        exists h',
          set Sample.no_adapter Sample.endb "baz" VNull Sample.holding
          = (Resolved (VBool true), h')
          /\ fst (get Sample.no_adapter Sample.endb "foo" h')
             = fst (get Sample.no_adapter Sample.endb "foo" Sample.holding)
          /\ fst (has Sample.no_adapter Sample.endb "foo" h')
             = fst (has Sample.no_adapter Sample.endb "foo" Sample.holding))
  /\ (exists b h',
        delete Sample.no_adapter Sample.endb "baz" Sample.holding
        = (Resolved (VBool b), h')
        /\ fst (get Sample.no_adapter Sample.endb "foo" h')
           = fst (get Sample.no_adapter Sample.endb "foo" Sample.holding)
        /\ fst (has Sample.no_adapter Sample.endb "foo" h')
           = fst (has Sample.no_adapter Sample.endb "foo" Sample.holding)).
Proof.
  assert (ne : "baz" <> "foo") by discriminate.
  split; [exact holding_on_Map | split; [exact ne|]].
  exact (other_keys_untouched unit Sample.no_adapter Sample.endb Sample.holding
           [("endb:foo", VStr "bar")] "baz" "foo" VNull holding_on_Map ne).
Defined.

Lemma last_set_wins_witness :
  backed_by_Map Sample.endb Sample.holding [("endb:foo", VStr "bar")]
  /\ Sample.stringify (VBool true) = Resolved (VStr "true")
  /\ Sample.stringify VNull = Resolved (VStr "null")
  /\ exists h1 h2 h3,
       set Sample.no_adapter Sample.endb "foo" (VBool true) Sample.holding
       = (Resolved (VBool true), h1)
       /\ set Sample.no_adapter Sample.endb "foo" VNull h1
          = (Resolved (VBool true), h2)
       /\ get Sample.no_adapter Sample.endb "foo" h2 = (Resolved VNull, h2)
       /\ delete Sample.no_adapter Sample.endb "foo" h2
          = (Resolved (VBool true), h3)
       /\ has Sample.no_adapter Sample.endb "foo" h3
          = (Resolved (VBool false), h3).
Proof.
  split; [exact holding_on_Map | split; [reflexivity | split; [reflexivity|]]].
  exact (last_set_wins unit Sample.no_adapter Sample.endb Sample.holding
           [("endb:foo", VStr "bar")] "foo" (VBool true) VNull (VStr "true")
           (VStr "null") holding_on_Map eq_refl eq_refl).
Defined.

Lemma colon_free_namespaces_isolate_witness :
  store (options Sample.users) = Some 0%nat
  /\ store (options Sample.members) = Some 0%nat
  /\ has_colon (namespace (options Sample.users)) = false
  /\ has_colon (namespace (options Sample.members)) = false
  /\ namespace (options Sample.users) <> namespace (options Sample.members)
  /\ (forall s, Sample.stringify VNull = Resolved s ->
        exists h',
          set Sample.no_adapter Sample.users "b" VNull Sample.shared
          = (Resolved (VBool true), h')
          /\ fst (get Sample.no_adapter Sample.members "b" h')
             = fst (get Sample.no_adapter Sample.members "b" Sample.shared)
          /\ fst (has Sample.no_adapter Sample.members "b" h')
             = fst (has Sample.no_adapter Sample.members "b" Sample.shared))
  /\ (exists b h',
        delete Sample.no_adapter Sample.users "b" Sample.shared
        = (Resolved (VBool b), h')
        /\ fst (get Sample.no_adapter Sample.members "b" h')
           = fst (get Sample.no_adapter Sample.members "b" Sample.shared)
        /\ fst (has Sample.no_adapter Sample.members "b" h')
           = fst (has Sample.no_adapter Sample.members "b" Sample.shared)).
Proof.
  assert (differ : namespace (options Sample.users)
                   <> namespace (options Sample.members)) by discriminate.
  repeat (split; [reflexivity || exact differ|]).
  exact (colon_free_namespaces_isolate unit Sample.no_adapter Sample.users
           Sample.members Sample.shared 0%nat _ (Some "members") "b" "b" VNull
           eq_refl eq_refl eq_refl eq_refl eq_refl differ).
Defined.

Lemma colon_in_namespace_collides_witness :
  let this := Sample.instance "app" Sample.parse 0 in
  let other := Sample.instance "app:cache" Sample.parse 0 in
  namespace (options other) = (namespace (options this) ++ ":" ++ "cache")%string
  /\ Sample.stringify (VBool true) = Resolved (VStr "true")
  /\ _addKeyPrefix this "cache:hit" = _addKeyPrefix other "hit"
  /\ exists h' h'',
       set Sample.no_adapter this "cache:hit" (VBool true)
         [SMap [] (Some "app")]
       = (Resolved (VBool true), h')
       /\ get Sample.no_adapter other "hit" h' = (Resolved (VBool true), h')
       /\ delete Sample.no_adapter other "hit" h' = (Resolved (VBool true), h'')
       /\ has Sample.no_adapter this "cache:hit" h''
          = (Resolved (VBool false), h'').
Proof.
  intros this other. split; [reflexivity | split; [reflexivity|]].
  exact (colon_in_namespace_collides unit Sample.no_adapter this other
           [SMap [] (Some "app")] 0%nat [] (Some "app") "cache" "hit"
           (VBool true) (VStr "true") eq_refl eq_refl eq_refl eq_refl eq_refl).
Defined.

Lemma all_lists_every_entry_witness :
  backed_by_Map Sample.wrapped Sample.mixed
    [("endb:foo", VStr "bar"); ("users:a", VStr "baz")]
  /\ (forall (k : string) v,
        In (k, v) [("endb:foo", VStr "bar"); ("users:a", VStr "baz")] ->
        exists d, Sample.envelope v = Resolved d /\ dot_value d = Resolved v)
  /\ all Sample.no_adapter Sample.wrapped Sample.mixed
     = (Resolved (VArr [element "foo" (VStr "bar");
                        element "users:a" (VStr "baz")]), Sample.mixed).
Proof.
  assert (on_Map : backed_by_Map Sample.wrapped Sample.mixed
                     [("endb:foo", VStr "bar"); ("users:a", VStr "baz")]).
  { exists 0%nat, (Some "endb"). split; reflexivity. }
  assert (ok : forall (k : string) v,
             In (k, v) [("endb:foo", VStr "bar"); ("users:a", VStr "baz")] ->
             exists d, Sample.envelope v = Resolved d
                       /\ dot_value d = Resolved v).
  { intros k v _. eexists. split; reflexivity. }
  split; [exact on_Map | split; [exact ok|]].
  exact (all_lists_every_entry unit Sample.no_adapter Sample.wrapped
           Sample.mixed _ (fun v => v) on_Map ok).
Defined.

Lemma one_bad_entry_rejects_all_witness :
  backed_by_Map Sample.endb Sample.mixed
    [("endb:foo", VStr "bar"); ("users:a", VStr "baz")]
  /\ In ("users:a", VStr "baz")
       [("endb:foo", VStr "bar"); ("users:a", VStr "baz")]
  /\ Sample.parse (VStr "baz") = Rejected SyntaxError
  /\ exists e',
       all Sample.no_adapter Sample.endb Sample.mixed = (Rejected e', Sample.mixed)
       /\ forall fn thisArg,
            find Sample.no_adapter Sample.endb fn thisArg Sample.mixed
            = (Rejected e', Sample.mixed).
Proof.
  assert (on_Map : backed_by_Map Sample.endb Sample.mixed
                     [("endb:foo", VStr "bar"); ("users:a", VStr "baz")]).
  { exists 0%nat, (Some "endb"). split; reflexivity. }
  assert (member : In ("users:a", VStr "baz")
                     [("endb:foo", VStr "bar"); ("users:a", VStr "baz")])
    by (right; left; reflexivity).
  split; [exact on_Map | split; [exact member | split; [reflexivity|]]].
  exact (one_bad_entry_rejects_all unit Sample.no_adapter Sample.endb
           Sample.mixed _ "users:a" (VStr "baz") SyntaxError on_Map member
           eq_refl).
Defined.

Lemma find_needs_an_iterable_witness :
  all Sample.mute Sample.endb [SAdapter tt] = (Resolved VUndefined, [SAdapter tt])
  /\ find Sample.mute Sample.endb Sample.is_bar VUndefined [SAdapter tt]
     = (Rejected TypeError, [SAdapter tt]).
Proof.
  split; [reflexivity|].
  exact (find_needs_an_iterable unit Sample.mute Sample.endb Sample.is_bar
           VUndefined VUndefined [SAdapter tt] [SAdapter tt] eq_refl I).
Defined.

Lemma has_reads_the_doubled_key_witness :
  store (options Sample.endb) = Some 0%nat
  /\ nth_error [SAdapter [("endb:foo", VObj [])]] 0
     = Some (SAdapter [("endb:foo", VObj [])])
  /\ get Sample.recorder Sample.endb "foo" [SAdapter [("endb:foo", VObj [])]]
     = (Resolved (VObj []), [SAdapter [("endb:foo", VObj [])]])
  /\ has Sample.recorder Sample.endb "foo" [SAdapter [("endb:foo", VObj [])]]
     = (Resolved (VBool false), [SAdapter [("endb:foo", VObj [])]]).
Proof.
  repeat (split; [reflexivity|]).
  exact (proj1 (has_reads_the_doubled_key _ Sample.recorder Sample.endb
                  [SAdapter [("endb:foo", VObj [])]] 0%nat
                  [("endb:foo", VObj [])] "foo" eq_refl eq_refl)).
Defined.

Lemma math_stores_the_result_witness :
  backed_by_Map Sample.endb Sample.counting [("endb:num", VNum (inject_Z 10))]
  /\ "add" <> "random" /\ "add" <> "rand"
  /\ Sample.adding (VNum (inject_Z 10)) "add" (inject_Z 40)
     = Resolved (VNum (inject_Z 50))
  /\ Sample.stringify (VNum (inject_Z 50)) = Resolved (VStr "50")
  /\ exists h',
       math Sample.no_adapter Sample.adding Qmult Sample.endb "num" "add"
         (inject_Z 40) 0 Sample.counting
       = (Resolved (VBool true), h')
       /\ get Sample.no_adapter Sample.endb "num" h'
          = (Resolved (VNum (inject_Z 50)), h').
Proof.
  assert (on_Map : backed_by_Map Sample.endb Sample.counting
                     [("endb:num", VNum (inject_Z 10))]).
  { exists 0%nat, (Some "endb"). split; reflexivity. }
  assert (n1 : "add" <> "random") by discriminate.
  assert (n2 : "add" <> "rand") by discriminate.
  repeat (split; [assumption || reflexivity|]).
  exact (proj2 (math_stores_the_result unit Sample.no_adapter Sample.adding
                  Qmult Sample.endb Sample.counting _ "num" "add" (inject_Z 40)
                  0%Q on_Map n1 n2)
           (VNum (inject_Z 50)) (VStr "50") eq_refl eq_refl).
Defined.

Lemma adapter_option_loads_module_witness :
  let o := assign (uri_object (UriString "sqlite://db"))
             (Sample.with_adapter "redis") in
  arg_store o = None
  /\ arg_adapter o = Some "redis"
  /\ assoc "redis" adapters = Some "./adapters/redis"
  /\ constructor Sample.stringify Sample.parse Sample.recorder Sample.modules
       (UriString "sqlite://db") (Sample.with_adapter "redis") []
     = (Resolved (Build_Endb (with_store (defaults Sample.stringify Sample.parse o)
                                0)),
        [SAdapter [("module", VStr "./adapters/redis")]]).
Proof.
  intros o. repeat (split; [reflexivity|]).
  exact (adapter_option_loads_module Sample.stringify Sample.parse _
           Sample.recorder Sample.modules (UriString "sqlite://db")
           (Sample.with_adapter "redis") [] "redis" "./adapters/redis"
           eq_refl eq_refl eq_refl).
Defined.

Lemma unknown_adapter_option_ignores_uri_witness :
  let o := assign (uri_object (UriString "sqlite://db"))
             (Sample.with_adapter "memory") in
  arg_store o = None
  /\ arg_adapter o = Some "memory"
  /\ "memory" <> EmptyString
  /\ assoc "memory" adapters = None
  /\ mem_string "memory" Object_prototype = false
  /\ assoc (scheme_of "sqlite://db") adapters = Some "./adapters/sqlite"
  /\ constructor Sample.stringify Sample.parse Sample.recorder Sample.modules
       (UriString "sqlite://db") (Sample.with_adapter "memory") []
     = (Resolved (Build_Endb (with_store (defaults Sample.stringify Sample.parse o)
                                0)),
        [SMap [] (Some "endb")]).
Proof.
  intros o. assert (nonempty : "memory" <> EmptyString) by discriminate.
  repeat (split; [reflexivity || exact nonempty|]).
  exact (unknown_adapter_option_ignores_uri Sample.stringify Sample.parse _
           Sample.recorder Sample.modules (UriString "sqlite://db")
           (Sample.with_adapter "memory") [] "memory"
           eq_refl eq_refl nonempty eq_refl eq_refl).
Defined.

Lemma uri_scheme_loads_module_witness :
  let o := assign (uri_object (UriString "sqlite://test.sqlite")) no_options in
  arg_store o = None
  /\ truthy_string (arg_adapter o) = false
  /\ arg_uri o = Some ("sqlite" ++ ":" ++ "//test.sqlite")%string
  /\ has_colon "sqlite" = false
  /\ assoc "sqlite" adapters = Some "./adapters/sqlite"
  /\ constructor Sample.stringify Sample.parse Sample.recorder Sample.modules
       (UriString "sqlite://test.sqlite") no_options []
     = (Resolved (Build_Endb (with_store (defaults Sample.stringify Sample.parse o)
                                0)),
        [SAdapter [("module", VStr "./adapters/sqlite")]]).
Proof.
  intros o. repeat (split; [reflexivity|]).
  exact (uri_scheme_loads_module Sample.stringify Sample.parse _
           Sample.recorder Sample.modules (UriString "sqlite://test.sqlite")
           no_options [] "sqlite" "//test.sqlite" "./adapters/sqlite"
           eq_refl eq_refl eq_refl eq_refl eq_refl).
Defined.

Lemma inherited_member_throws_witness :
  let o := assign (uri_object (UriString "toString://db")) no_options in
  arg_store o = None
  /\ truthy_string (arg_adapter o) = false
  /\ arg_uri o = Some "toString://db"
  /\ scheme_of "toString://db" = "toString"
  /\ mem_string "toString" Object_prototype = true
  /\ constructor Sample.stringify Sample.parse Sample.recorder Sample.modules
       (UriString "toString://db") no_options Sample.holding_records
     = (Rejected TypeError, Sample.holding_records).
Proof.
  intros o. repeat (split; [reflexivity|]).
  exact (inherited_member_throws Sample.stringify Sample.parse _
           Sample.recorder Sample.modules (UriString "toString://db")
           no_options Sample.holding_records "toString" eq_refl
           (or_intror (conj eq_refl
                         (ex_intro _ "toString://db" (conj eq_refl eq_refl))))
           eq_refl).
Defined.

Lemma given_Map_is_adopted_witness :
  let o := assign (uri_object (UriString "sqlite://db")) Sample.the_store in
  arg_store o = Some 0%nat
  /\ nth_error Sample.used 0 = Some (SMap [("endb:foo", VStr "bar")] None)
  /\ exists this h',
       constructor Sample.stringify Sample.parse Sample.no_adapter
         Sample.no_module (UriString "sqlite://db") Sample.the_store Sample.used
       = (Resolved this, h')
       /\ h' = [SMap [("endb:foo", VStr "bar")] (Some "endb")]
       /\ namespace (options this) = "endb"
       /\ forall k,
            get Sample.no_adapter this k h'
            = (Resolved (Map.get ("endb" ++ ":" ++ k)
                           [("endb:foo", VStr "bar")]), h').
Proof.
  intros o. repeat (split; [reflexivity|]).
  exact (given_Map_is_adopted Sample.stringify Sample.parse unit
           Sample.no_adapter Sample.no_module (UriString "sqlite://db")
           Sample.the_store Sample.used 0%nat [("endb:foo", VStr "bar")] None
           eq_refl eq_refl).
Defined.

Lemma fallback_without_options :
  falls_back (assign (uri_object (UriOptions no_options)) no_options).
Proof. repeat split. Defined.

Lemma multi_makes_a_store_per_name_witness :
  falls_back (assign (uri_object (UriOptions no_options)) no_options)
  /\ exists instances,
       multi Sample.stringify Sample.parse Sample.no_adapter Sample.no_module
         ["users"; "members"] no_options []
       = (Resolved instances, [SMap [] (Some "endb"); SMap [] (Some "endb")])
       /\ (forall name, In name ["users"; "members"] -> name <> "__proto__" ->
             exists e, own_member name (own instances) = Some e)
       /\ (forall name e, own_member name (own instances) = Some e ->
             namespace (options e) = "endb"
             /\ exists i, nth_error ["users"; "members"] i = Some name
                          /\ store (options e) = Some (0 + i)%nat).
Proof.
  split; [exact fallback_without_options|].
  exact (multi_makes_a_store_per_name Sample.stringify Sample.parse unit
           Sample.no_adapter Sample.no_module no_options ["users"; "members"]
           [] fallback_without_options).
Defined.

Lemma multi_instances_are_apart_witness :
  falls_back (assign (uri_object (UriOptions no_options)) no_options)
  /\ multi Sample.stringify Sample.parse Sample.no_adapter Sample.no_module
       ["users"; "members"] no_options []
     = (Resolved Sample.pair, [SMap [] (Some "endb"); SMap [] (Some "endb")])
  /\ own_member "users" (own Sample.pair)
     = Some (Sample.instance "endb" Sample.parse 0)
  /\ own_member "members" (own Sample.pair)
     = Some (Sample.instance "endb" Sample.parse 1)
  /\ "users" <> "members"
  /\ Sample.stringify (VStr "bar") = Resolved (VStr (Sample.quoted "bar"))
  /\ exists h2,
       set Sample.no_adapter (Sample.instance "endb" Sample.parse 0) "foo"
         (VStr "bar") [SMap [] (Some "endb"); SMap [] (Some "endb")]
       = (Resolved (VBool true), h2)
       /\ get Sample.no_adapter (Sample.instance "endb" Sample.parse 0) "foo" h2
          = (Resolved (VStr "bar"), h2)
       /\ get Sample.no_adapter (Sample.instance "endb" Sample.parse 1) "foo" h2
          = (Resolved VUndefined, h2).
Proof.
  assert (differ : "users" <> "members") by discriminate.
  split; [exact fallback_without_options|].
  repeat (split; [reflexivity || exact differ|]).
  exact (multi_instances_are_apart Sample.stringify Sample.parse unit
           Sample.no_adapter Sample.no_module no_options ["users"; "members"]
           [] _ Sample.pair "users" "members" _ _ "foo" (VStr "bar")
           (VStr (Sample.quoted "bar")) fallback_without_options eq_refl
           eq_refl eq_refl differ eq_refl).
Defined.


Lemma strip_merges_store_keys_witness :
  has_colon "foo" = false
  /\ _removeKeyPrefix Sample.endb "foo" = "foo"
  /\ _removeKeyPrefix Sample.endb (_addKeyPrefix Sample.endb "foo") = "foo"
  /\ _addKeyPrefix Sample.endb "foo" <> "foo".
Proof.
  split; [reflexivity|].
  exact (strip_merges_store_keys Sample.endb "foo" eq_refl).
Defined.

Lemma keys_handed_to_the_store_witness :
  store (options Sample.endb) = Some 0%nat
  /\ nth_error [SAdapter [("endb:foo", VNull)]] 0
     = Some (SAdapter [("endb:foo", VNull)])
  /\ Sample.stringify VNull = Resolved (VStr "null")
  /\ set Sample.recorder Sample.endb "foo" VNull [SAdapter []]
     = (Resolved (VBool true), [SAdapter [("endb:foo", VNull)]])
  /\ get Sample.recorder Sample.endb "foo" [SAdapter [("endb:foo", VNull)]]
     = (Resolved VNull, [SAdapter [("endb:foo", VNull)]])
  /\ typeof_object VNull = true
  /\ has Sample.recorder Sample.endb "foo" [SAdapter [("endb:foo", VNull)]]
     = (Resolved (VBool false), [SAdapter [("endb:foo", VNull)]])
  /\ "endb:endb:foo" <> "endb:foo"
  /\ _removeKeyPrefix Sample.endb "endb:foo" = "foo".
Proof.
  destruct (keys_handed_to_the_store _ Sample.recorder Sample.endb
              [SAdapter [("endb:foo", VNull)]] 0%nat
              (SAdapter [("endb:foo", VNull)]) "foo" VNull eq_refl eq_refl)
    as [got [_ [_ [[asked differ] stripped]]]].
  destruct (keys_handed_to_the_store _ Sample.recorder Sample.endb
              [SAdapter []] 0%nat (SAdapter []) "foo" VNull eq_refl eq_refl)
    as [_ [_ [written _]]].
  exact (conj eq_refl
          (conj eq_refl
             (conj eq_refl
                (conj (written (VStr "null") eq_refl)
                   (conj got
                      (conj eq_refl
                         (conj asked (conj differ stripped)))))))).
Defined.
